(** * steembase.operations: operation registry, dispatcher and wire encoding

    A shallow embedding of [steembase/operations.py].  Python objects that
    the module shares and mutates (the [OrderedDict] behind a variant, the
    standard output) live in an explicit store that every constructor
    threads; exceptions are values of [exn]. *)

From Stdlib Require Import ZArith NArith Ascii String List DecimalString.
From Stdlib.Strings Require Import Byte.
From Stdlib Require DecimalZ.
From stdpp Require Import base strings gmap list.

(** ** Python values *)

(** What a field map holds: a [str] (one character per code point, code
    points below 256) or an [int]. *)
Inductive value :=
| VStr (s : string)
| VInt (z : Z).

Definition loc := nat.

(** The two variant classes that [operations.py] defines. *)
Inductive klass := Vote | Comment.

(** An instance of a variant class: its class and the object that its
    attribute [data] refers to. *)
Record GrapheneObject := { type_ : klass; data : loc }.

(** What a caller can hand to [Operation(...)] or to a variant class. *)
#[local] Unset Elimination Schemes.
Inductive pyobj :=
| PVal (v : value)
| PDict (m : gmap string value)
| PObj (o : GrapheneObject)
| PList (l : list pyobj).
#[local] Set Elimination Schemes.

Inductive exn :=
| KeyError (key : pyobj)
| IndexError
| TypeError
| ValueError
| AttributeError
| StructError
| SystemError
| NotImplementedError (msg : string).

Inductive result (A : Type) :=
| Ok (a : A)
| Raise (e : exn).
Arguments Ok {A} a.
Arguments Raise {A} e.

Definition rbind {A B} (r : result A) (k : A → result B) : result B :=
  match r with
  | Ok a => k a
  | Raise e => Raise e
  end.

Definition bytes := list byte.

(** ** Text helpers *)

Definition class_name (k : klass) : string :=
  match k with
  | Vote => "Vote"
  | Comment => "Comment"
  end.

(** [type(x).__name__] *)
Definition type_name (x : pyobj) : string :=
  match x with
  | PVal (VStr _) => "str"
  | PVal (VInt _) => "int"
  | PDict _ => "dict"
  | PObj o => class_name (type_ o)
  | PList _ => "list"
  end.

(** [str.upper] and [str.lower] on one character; the module applies them
    to registry keys and class names only, which are ASCII. *)
Definition upper_char (a : ascii) : ascii :=
  let c := N_of_ascii a in
  if ((97 <=? c) && (c <=? 122))%N then ascii_of_N (c - 32) else a.

Definition lower_char (a : ascii) : ascii :=
  let c := N_of_ascii a in
  if ((65 <=? c) && (c <=? 90))%N then ascii_of_N (c + 32) else a.

Fixpoint lower (s : string) : string :=
  match s with
  | EmptyString => EmptyString
  | String a s' => String (lower_char a) (lower s')
  end.

(** [name[0].upper() + name[1:]] *)
Definition capitalize_first (name : string) : result string :=
  match name with
  | EmptyString => Raise IndexError
  | String a rest => Ok (String (upper_char a) rest)
  end.

(** ["%d" % i] for an [int]. *)
Definition format_d (i : Z) : string := NilZero.string_of_int (Z.to_int i).

(** ** graphenebase.types *)

Module Types.

(** The byte with the given value, for a value below 256. *)
Definition byte_of_N (n : N) : byte := default x00 (Byte.of_N n).

(** Modelled from the spec: graphenebase.types is not among the sources.
    The loop behind [varint]; [fuel] bounds the number of bytes. *)
Fixpoint varint_loop (fuel : nat) (n : N) : bytes :=
  match fuel with
  | O => [byte_of_N n]
  | S fuel' =>
      if (n <? 128)%N then [byte_of_N n]
      else byte_of_N (N.lor (N.land n 127) 128)
             :: varint_loop fuel' (N.shiftr n 7)
  end.

(** Modelled from the spec: graphenebase.types is not among the sources.
    [varint] is the compact integer of the wire format, a variable-length
    encoding of an unsigned integer: seven bits to a byte, low group
    first, the top bit set on every byte but the last.  The fuel is the
    number of bits of [n], which the loop never uses up. *)
Definition varint (n : N) : bytes := varint_loop (N.to_nat (N.size n)) n.

(** The UTF-8 bytes of one code point below 256: itself below 128, two
    bytes from there on. *)
Definition utf8_char (a : ascii) : bytes :=
  let c := N_of_ascii a in
  if (c <? 128)%N then [byte_of_N c]
  else [byte_of_N (N.lor 192 (N.shiftr c 6));
        byte_of_N (N.lor 128 (N.land c 63))].

(** Modelled from the spec: graphenebase.types is not among the sources.
    The UTF-8 bytes of a [str]. *)
Fixpoint utf8 (s : string) : bytes :=
  match s with
  | EmptyString => []
  | String a s' => utf8_char a ++ utf8 s'
  end.

(** Modelled from the spec: graphenebase.types is not among the sources.
    A fixed-width signed 16-bit integer: two bytes, little-endian, two's
    complement. *)
Definition int16_le (z : Z) : bytes :=
  let u := (z mod 65536)%Z in
  [byte_of_N (Z.to_N (u mod 256)); byte_of_N (Z.to_N (u / 256))].

(** Python's [int(d)] on a [str]: white space around, an optional sign,
    decimal digits with single underscores between them, at most 4300
    digits.  [is_space] is the white space that [int] strips: tab to
    carriage return, the space, and the two blanks 133 and 160. *)
Definition is_space (a : ascii) : bool :=
  let c := N_of_ascii a in
  (((9 <=? c) && (c <=? 13)) || (c =? 32) || (c =? 133) || (c =? 160))%N.

Definition digit_of (a : ascii) : option Z :=
  let c := N_of_ascii a in
  if ((48 <=? c) && (c <=? 57))%N then Some (Z.of_N (c - 48)) else None.

Fixpoint lstrip (l : list ascii) : list ascii :=
  match l with
  | a :: l' => if is_space a then lstrip l' else l
  | [] => []
  end.

Definition strip (l : list ascii) : list ascii :=
  rev (lstrip (rev (lstrip l))).

Fixpoint digits (acc : Z) (after_digit : bool) (l : list ascii) : option Z :=
  match l with
  | [] => if after_digit then Some acc else None
  | a :: l' =>
      match digit_of a with
      | Some d => digits (10 * acc + d) true l'
      | None =>
          if Ascii.eqb a "_" && after_digit then digits acc false l'
          else None
      end
  end.

Definition int_of_str (s : string) : option Z :=
  let l := strip (list_ascii_of_string s) in
  if (4300 <? length (filter (λ a, is_Some (digit_of a)) l))%nat then None
  else
    match l with
    | a :: l' =>
        if Ascii.eqb a "-" then Z.opp <$> digits 0 false l'
        else if Ascii.eqb a "+" then digits 0 false l'
        else digits 0 false (a :: l')
    | [] => None
    end.

(** Python's [int(d)]. *)
Definition py_int (d : value) : result Z :=
  match d with
  | VInt z => Ok z
  | VStr s =>
      match int_of_str s with
      | Some z => Ok z
      | None => Raise ValueError
      end
  end.

(** Modelled from the spec: graphenebase.types is not among the sources.
    The typed fields of a variant, each holding the value it was made
    from: [String(d)] holds the text [d], [Int16(d)] holds [int(d)]. *)
Inductive t :=
| String (d : value)
| Int16 (d : Z).

(** Modelled from the spec: graphenebase.types is not among the sources.
    [String(d)] validates [d] against the declared type when the field is
    made: a [str] is kept, anything else is an invalid field value (the
    spec's InvalidFieldValueError, a [TypeError] here). *)
Definition String__init__ (d : value) : result t :=
  match d with
  | VStr _ => Ok (String d)
  | VInt _ => Raise TypeError
  end.

(** Modelled from the spec: graphenebase.types is not among the sources.
    [Int16(d)] converts [d] with [int] and fails where [int] does. *)
Definition Int16__init__ (d : value) : result t :=
  rbind (py_int d) (λ z, Ok (Int16 z)).

(** Modelled from the spec: graphenebase.types is not among the sources.
    A string is [varint(byte length) ++ UTF-8 bytes]; what is not a [str]
    has no such encoding. *)
Definition String__bytes__ (d : value) : result bytes :=
  match d with
  | VStr s => Ok (varint (N.of_nat (length (utf8 s))) ++ utf8 s)
  | VInt _ => Raise TypeError
  end.

(** Modelled from the spec: graphenebase.types is not among the sources.
    [struct.pack("<h", d)]: outside the signed 16-bit range there is no
    encoding. *)
Definition Int16__bytes__ (d : Z) : result bytes :=
  if ((-32768 <=? d) && (d <=? 32767))%Z then Ok (int16_le d)
  else Raise StructError.

(** Modelled from the spec: graphenebase.types is not among the sources.
    [bytes(Id(d))]: the compact integer of [d]. *)
Definition Id__bytes__ (d : Z) : result bytes :=
  if (d <? 0)%Z then Raise ValueError else Ok (varint (Z.to_N d)).

(** [bytes(x)] for a field [x]. *)
Definition to_bytes (x : t) : result bytes :=
  match x with
  | String d => String__bytes__ d
  | Int16 d => Int16__bytes__ d
  end.

End Types.

(** ** The store *)

Abbreviation OrderedDict := (list (string * Types.t)).

Record state := { heap : list OrderedDict; stdout : list string }.

Definition M (A : Type) : Type := state → result A * state.

Definition ret {A} (a : A) : M A := λ st, (Ok a, st).

Definition raise {A} (e : exn) : M A := λ st, (Raise e, st).

Definition lift {A} (r : result A) : M A := λ st, (r, st).

Definition bind {A B} (c : M A) (k : A → M B) : M B :=
  λ st,
    match c st with
    | (Ok a, st') => k a st'
    | (Raise e, st') => (Raise e, st')
    end.

Notation "'let!' x ':=' c 'in' k" := (bind c (λ x, k))
  (at level 10, x name, c at level 100, k at level 200).

(** [OrderedDict([...])]: a new object. *)
Definition new_OrderedDict (items : OrderedDict) : M loc :=
  λ st, (Ok (length (heap st)),
         {| heap := heap st ++ [items]; stdout := stdout st |}).

(** Reading the object behind a reference.  A reference outside the heap
    does not occur in a Python run; the model reports it as [SystemError]. *)
Definition load (l : loc) : M OrderedDict :=
  λ st,
    match heap st !! l with
    | Some d => (Ok d, st)
    | None => (Raise SystemError, st)
    end.

(** [print(s)] *)
Definition print (s : string) : M unit :=
  λ st, (Ok tt, {| heap := heap st; stdout := stdout st ++ [s] |}).

(** ** Python containers *)

(** [d[k] = v] on a dict that keeps insertion order. *)
Fixpoint dict_setitem {V} (d : list (string * V)) (k : string) (v : V)
  : list (string * V) :=
  match d with
  | [] => [(k, v)]
  | (k', v') :: d' =>
      if String.eqb k' k then (k', v) :: d'
      else (k', v') :: dict_setitem d' k v
  end.

Fixpoint dict_get {V} (d : list (string * V)) (k : string) : option V :=
  match d with
  | [] => None
  | (k', v') :: d' => if String.eqb k' k then Some v' else dict_get d' k
  end.

(** [args[0]] *)
Definition first_arg (args : list pyobj) : result pyobj :=
  match args with
  | a :: _ => Ok a
  | [] => Raise IndexError
  end.

(** [x.data] *)
Definition getattr_data (x : pyobj) : result loc :=
  match x with
  | PObj o => Ok (data o)
  | _ => Raise AttributeError
  end.

(** [kwargs[k]] for a [str] key [k]; only a dict can be indexed by one. *)
Definition getitem (kwargs : pyobj) (k : string) : result value :=
  match kwargs with
  | PDict m =>
      match m !! k with
      | Some v => Ok v
      | None => Raise (KeyError (PVal (VStr k)))
      end
  | _ => Raise TypeError
  end.

(** ** graphenebase.objects *)

Module Objects.

(** Modelled from the spec: graphenebase.objects is not among the
    sources.  The arguments are an existing value of the same variant
    type: one positional argument whose class is the class being built. *)
Definition isArgsThisClass (self : klass) (args : list pyobj) : bool :=
  match args with
  | [a] => String.eqb (type_name a) (class_name self)
  | _ => false
  end.

(** Modelled from the spec: graphenebase.objects is not among the
    sources.  The loop of [GrapheneObject.__bytes__] over the items of
    [data]: the bytes of each value, appended in order. *)
Fixpoint bytes_items (items : OrderedDict) : result bytes :=
  match items with
  | [] => Ok []
  | (_, v) :: rest =>
      rbind (Types.to_bytes v) (λ b,
        rbind (bytes_items rest) (λ bs, Ok (b ++ bs)))
  end.

(** Modelled from the spec: graphenebase.objects is not among the
    sources.  A variant encodes as the concatenation of each field's own
    encoding, in declared order. *)
Definition GrapheneObject__bytes__ (self : GrapheneObject) : M bytes :=
  let! d := load (data self) in
  lift (bytes_items d).

End Objects.

(** [bytes(x)] for the objects of the model: a variant encodes itself, the
    rest is the built-in constructor. *)
Fixpoint bytes_of_ints (l : list pyobj) : result bytes :=
  match l with
  | [] => Ok []
  | PVal (VInt z) :: l' =>
      if ((0 <=? z) && (z <? 256))%Z
      then rbind (bytes_of_ints l') (λ bs, Ok (Types.byte_of_N (Z.to_N z) :: bs))
      else Raise ValueError
  | _ :: _ => Raise TypeError
  end.

Definition py_bytes (x : pyobj) : M bytes :=
  match x with
  | PObj o => Objects.GrapheneObject__bytes__ o
  | PVal (VStr _) => raise TypeError
  | PVal (VInt n) =>
      if (n <? 0)%Z then raise ValueError else ret (replicate (Z.to_nat n) x00)
  | PDict m => if decide (m = ∅) then ret [] else raise TypeError
  | PList l => lift (bytes_of_ints l)
  end.

(** ** Operation ids *)

Definition operations : list (string * Z) :=
  let operations := [] in
  let operations := dict_setitem operations "vote" 0%Z in
  let operations := dict_setitem operations "comment" 1%Z in
  let operations := dict_setitem operations "transfer" 2%Z in
  let operations := dict_setitem operations "transfer_to_vesting" 3%Z in
  let operations := dict_setitem operations "withdraw_vesting" 4%Z in
  let operations := dict_setitem operations "limit_order_create" 5%Z in
  let operations := dict_setitem operations "limit_order_cancel" 6%Z in
  let operations := dict_setitem operations "feed_publish" 7%Z in
  let operations := dict_setitem operations "convert" 8%Z in
  let operations := dict_setitem operations "account_create" 9%Z in
  let operations := dict_setitem operations "account_update" 10%Z in
  let operations := dict_setitem operations "witness_update" 11%Z in
  let operations := dict_setitem operations "account_witness_vote" 12%Z in
  let operations := dict_setitem operations "account_witness_proxy" 13%Z in
  let operations := dict_setitem operations "pow" 14%Z in
  let operations := dict_setitem operations "custom" 15%Z in
  let operations := dict_setitem operations "report_over_production" 16%Z in
  let operations := dict_setitem operations "fill_convert_request" 17%Z in
  let operations := dict_setitem operations "comment_reward" 18%Z in
  let operations := dict_setitem operations "curate_reward" 19%Z in
  let operations := dict_setitem operations "liquidity_reward" 20%Z in
  let operations := dict_setitem operations "interest" 21%Z in
  let operations := dict_setitem operations "fill_vesting_withdraw" 22%Z in
  let operations := dict_setitem operations "fill_order" 23%Z in
  operations.

(** [operations[key]] for any object used as key: a [str] is looked up, a
    dict or a list cannot be hashed, anything else is simply absent. *)
Definition operations_getitem (key : pyobj) : result Z :=
  match key with
  | PVal (VStr s) =>
      match dict_get operations s with
      | Some i => Ok i
      | None => Raise (KeyError key)
      end
  | PDict _ | PList _ => Raise TypeError
  | _ => Raise (KeyError key)
  end.

(** [a is b] on two [int] objects of which [a] is a registry id: the ids
    are small integers, of which the interpreter keeps one object each, so
    that identity is equality of the numbers. *)
Definition int_is (a b : Z) : bool := (a =? b)%Z.

(** The loop of [getOperationNameForId] over the keys still to visit. *)
Fixpoint getOperationNameForId_loop (keys : list string) (i : Z)
  : result (option string) :=
  match keys with
  | [] => Ok None
  | key :: keys' =>
      rbind (operations_getitem (PVal (VStr key))) (λ v,
        if int_is v i then Ok (Some key)
        else getOperationNameForId_loop keys' i)
  end.

Definition getOperationNameForId (i : Z) : result string :=
  rbind (getOperationNameForId_loop (operations.*1) i) (λ found,
    match found with
    | Some key => Ok key
    | None => Ok ("Unknown Operation ID " +:+ format_d i)
    end).

(** ** Actual operations *)

Definition Vote__init__ (args : list pyobj) (kwargs : gmap string value)
  : M GrapheneObject :=
  if Objects.isArgsThisClass Vote args then
    let! a0 := lift (first_arg args) in
    let! d := lift (getattr_data a0) in
    ret {| type_ := Vote; data := d |}
  else
    let! kwargs :=
      (if (length args =? 1)%nat && (size kwargs =? 0)%nat
       then lift (first_arg args) else ret (PDict kwargs)) in
    let! voter := lift (rbind (getitem kwargs "voter") Types.String__init__) in
    let! author := lift (rbind (getitem kwargs "author") Types.String__init__) in
    let! permlink := lift (rbind (getitem kwargs "permlink") Types.String__init__) in
    let! weight := lift (rbind (getitem kwargs "weight") Types.Int16__init__) in
    let! d := new_OrderedDict [("voter", voter);
                               ("author", author);
                               ("permlink", permlink);
                               ("weight", weight)] in
    ret {| type_ := Vote; data := d |}.

Definition Comment__init__ (args : list pyobj) (kwargs : gmap string value)
  : M GrapheneObject :=
  if Objects.isArgsThisClass Comment args then
    let! a0 := lift (first_arg args) in
    let! d := lift (getattr_data a0) in
    ret {| type_ := Comment; data := d |}
  else
    let! kwargs :=
      (if (length args =? 1)%nat && (size kwargs =? 0)%nat
       then lift (first_arg args) else ret (PDict kwargs)) in
    let! parent_author := lift (rbind (getitem kwargs "parent_author") Types.String__init__) in
    let! parent_permlink := lift (rbind (getitem kwargs "parent_permlink") Types.String__init__) in
    let! author := lift (rbind (getitem kwargs "author") Types.String__init__) in
    let! permlink := lift (rbind (getitem kwargs "permlink") Types.String__init__) in
    let! title := lift (rbind (getitem kwargs "title") Types.String__init__) in
    let! body := lift (rbind (getitem kwargs "body") Types.String__init__) in
    let! json_metadata := lift (rbind (getitem kwargs "json_metadata") Types.String__init__) in
    let! d := new_OrderedDict [("parent_author", parent_author);
                               ("parent_permlink", parent_permlink);
                               ("author", author);
                               ("permlink", permlink);
                               ("title", title);
                               ("body", body);
                               ("json_metadata", json_metadata)] in
    ret {| type_ := Comment; data := d |}.

(** Calling a class object with positional and keyword arguments.  The
    instance under construction is bound to the parameter [self] of
    [__init__(self, *args, **kwargs)]: a keyword of that name is a second
    value for it, which Python refuses before the body runs. *)
Definition call_klass (k : klass) (args : list pyobj) (kwargs : gmap string value)
  : M GrapheneObject :=
  if bool_decide (is_Some (kwargs !! "self")) then raise TypeError
  else
    match k with
    | Vote => Vote__init__ args kwargs
    | Comment => Comment__init__ args kwargs
    end.

(** ** Operation *)

Record Operation := { opId : Z; name : string; op : pyobj }.

(** [eval(self.name)]: the name is a capitalised registry key; of these the
    module's namespace binds the two classes defined above and no other. *)
Definition eval (name : string) : option klass :=
  dict_get [("Vote", Vote); ("Comment", Comment)] name.

Definition Operation__init__ (op : pyobj) : M Operation :=
  match op with
  | PList [op0; op1] =>
      let! opId := lift (operations_getitem op0) in
      let! name :=
        lift (match op0 with
              | PVal (VStr name) => capitalize_first name
              | _ => Raise TypeError
              end) in
      let! klass :=
        match eval name with
        | Some klass => ret klass
        | None => raise (NotImplementedError ("Unimplemented Operation " +:+ name))
        end in
      let! o := call_klass klass [op1] ∅ in
      ret {| opId := opId; name := name; op := PObj o |}
  | _ =>
      let name := lower (type_name op) in
      let! _ := print name in
      let! opId := lift (operations_getitem (PVal (VStr name))) in
      ret {| opId := opId; name := name; op := op |}
  end.

Definition Operation__bytes__ (self : Operation) : M bytes :=
  let! b1 := lift (Types.Id__bytes__ (opId self)) in
  let! b2 := py_bytes (op self) in
  ret (b1 ++ b2).

(** A caller's statements [o.data.get(k)] and [o.data[k] = v] on a variant. *)
Definition get_field (o : GrapheneObject) (k : string) : M (option Types.t) :=
  let! d := load (data o) in
  ret (dict_get d k).

Definition set_field (o : GrapheneObject) (k : string) (v : Types.t) : M unit :=
  λ st,
    match heap st !! data o with
    | Some d =>
        (Ok tt, {| heap := <[data o := dict_setitem d k v]> (heap st);
                   stdout := stdout st |})
    | None => (Raise SystemError, st)
    end.

(** ** Declared fields and caller programs *)

Inductive ftype := TString | TInt16.

(** The keys that each class puts in its [OrderedDict], in the order of the
    source, with the type that wraps each value. *)
Definition schema (k : klass) : list (string * ftype) :=
  match k with
  | Vote =>
      [("voter", TString); ("author", TString); ("permlink", TString);
       ("weight", TInt16)]
  | Comment =>
      [("parent_author", TString); ("parent_permlink", TString);
       ("author", TString); ("permlink", TString); ("title", TString);
       ("body", TString); ("json_metadata", TString)]
  end.

Definition fields (k : klass) : list string := (schema k).*1.

(** The registry key of a class: [type(self.op).__name__.lower()]. *)
Definition registry_name (k : klass) : string := lower (class_name k).

(** A value of its declared type: a [str] for a string, an [int] of the
    signed 16-bit range for a 16-bit integer. *)
Definition valid_value (t : ftype) (v : value) : bool :=
  match t, v with
  | TString, VStr _ => true
  | TInt16, VInt z => ((-32768 <=? z) && (z <=? 32767))%Z
  | _, _ => false
  end.

(** A valid field map: every declared field is there, with such a value. *)
Definition valid_fields (k : klass) (m : gmap string value) : bool :=
  forallb (λ ft, match m !! ft.1 with
                 | Some v => valid_value ft.2 v
                 | None => false
                 end) (schema k).

(** A field map cut down to the declared fields. *)
Definition restrict (k : klass) (m : gmap string value) : gmap string value :=
  filter (λ kv, kv.1 ∈ fields k) m.

(** [bytes(Operation([name, m]))] *)
Definition encode_from_pair (name : string) (m : gmap string value) : M bytes :=
  let! o := Operation__init__ (PList [PVal (VStr name); PDict m]) in
  Operation__bytes__ o.

(** [bytes(Operation(klass(m)))] *)
Definition encode_from_value (k : klass) (m : gmap string value) : M bytes :=
  let! v := call_klass k [PDict m] ∅ in
  let! o := Operation__init__ (PObj v) in
  Operation__bytes__ o.

(** The constructor that the source applies to a field of each type. *)
Definition wrap (t : ftype) (v : value) : result Types.t :=
  match t with
  | TString => Types.String__init__ v
  | TInt16 => Types.Int16__init__ v
  end.

(** The list handed to [OrderedDict], read off the schema: each value is
    looked up and wrapped before the next one is. *)
Fixpoint build_items (sch : list (string * ftype)) (kwargs : pyobj)
  : result OrderedDict :=
  match sch with
  | [] => Ok []
  | (f, t) :: sch' =>
      rbind (rbind (getitem kwargs f) (wrap t)) (λ x,
        rbind (build_items sch' kwargs) (λ xs, Ok ((f, x) :: xs)))
  end.

Definition klass_id (k : klass) : Z :=
  match k with
  | Vote => 0
  | Comment => 1
  end.

(** The wire format of the spec, section 6:
    [Operation := varint(operation_id) ++ Field1Bytes ++ Field2Bytes ++ ...]. *)
Definition wire (k : klass) (m : gmap string value) : result bytes :=
  rbind (build_items (schema k) (PDict m)) (λ items,
    rbind (Objects.bytes_items items) (λ b,
      Ok (Types.varint (Z.to_N (klass_id k)) ++ b))).

(** The state after one more [OrderedDict] has been made. *)
Definition with_new (st : state) (items : OrderedDict) : state :=
  {| heap := heap st ++ [items]; stdout := stdout st |}.

Definition with_printed (st : state) (line : string) : state :=
  {| heap := heap st; stdout := stdout st ++ [line] |}.

Definition vote_alice : gmap string value :=
  list_to_map [("voter", VStr "alice"); ("author", VStr "bob");
               ("permlink", VStr "post1"); ("weight", VInt 100)].

(** A Vote map with a number where the voter belongs and no weight. *)
Definition vote_voter_5 : gmap string value :=
  list_to_map [("voter", VInt 5); ("author", VStr "bob");
               ("permlink", VStr "post1")].

(** A Vote map that holds every declared field and one more key, with a
    weight that is no number. *)
Definition vote_weight_abc : gmap string value :=
  <["memo" := VStr "x"]> (<["weight" := VStr "abc"]> vote_alice).

Definition comment_carol : gmap string value :=
  list_to_map [("parent_author", VStr ""); ("parent_permlink", VStr "");
               ("author", VStr "carol"); ("permlink", VStr "p2");
               ("title", VStr "Hi"); ("body", VStr "Body");
               ("json_metadata", VStr "{}")].

(** A caller who builds a Vote, builds a second one from the first, and
    sets the weight of the second; the result is the weight read through
    the first, before and after. *)
Definition copy_then_set : M (option Types.t * option Types.t) :=
  let! source := Vote__init__ [PDict vote_alice] ∅ in
  let! copy := Vote__init__ [PObj source] ∅ in
  let! before := get_field source "weight" in
  let! _ := set_field copy "weight" (Types.Int16 5) in
  let! after := get_field source "weight" in
  ret (before, after).

(** C5 as the spec words it: whenever a variant has been built from a field
    map and a second one from the first, setting a field of the second
    leaves that field of the first as it was. *)
Definition copies_independent : Prop :=
  ∀ (k : klass) (m : gmap string value) (st st1 st2 st3 : state)
    (source copy : GrapheneObject) (f : string) (v : Types.t),
    call_klass k [PDict m] ∅ st = (Ok source, st1) →
    call_klass k [PObj source] ∅ st1 = (Ok copy, st2) →
    set_field copy f v st2 = (Ok tt, st3) →
    (get_field source f st3).1 = (get_field source f st2).1.

(** A length-prefixed string of the wire format. *)
Definition prefixed (s : string) : bytes :=
  Types.varint (N.of_nat (length (Types.utf8 s))) ++ Types.utf8 s.


(** The outcome of building a variant of class [k] in state [st] once the
    list for its [OrderedDict] has been put together, or has failed to be. *)
Definition built (st : state) (k : klass) (r : result OrderedDict)
  : result GrapheneObject * state :=
  match r with
  | Ok items => (Ok {| type_ := k; data := length (heap st) |},
                 with_new st items)
  | Raise e => (Raise e, st)
  end.

(** A computation that writes nothing to the standard output and leaves
    every object that exists as it is. *)
Definition quiet {A} (c : M A) : Prop :=
  ∀ st, stdout (c st).2 = stdout st ∧ heap st `prefix_of` heap (c st).2.

Definition initial : state := {| heap := []; stdout := [] |}.

(** ** steemapi.steemwalletrpc *)

Module steemwalletrpc.

(** A decoded JSON text, as [json.loads] returns it: [None], a [bool], an
    [int], a [float] (kept as its literal), a [str], a [list] or a [dict]
    with [str] keys. *)
#[local] Unset Elimination Schemes.
Inductive json :=
| JNull
| JBool (b : bool)
| JInt (z : Z)
| JFloat (literal : string)
| JStr (s : string)
| JArr (l : list json)
| JObj (d : list (string * json)).
#[local] Set Elimination Schemes.

(** The exceptions of the module and of the calls it makes. *)
Inductive exn :=
| UnauthorizedError (msg : option string)
| RPCError (arg : json)
| RPCConnection (msg : string)
| RequestException
| ValueError (msg : string)
| JSONDecodeError
| TypeError
| KeyError (key : string)
| EOFError.

Inductive outcome (A : Type) :=
| Return (a : A)
| Raises (e : exn).
Arguments Return {A} a.
Arguments Raises {A} e.

(** [str.lower] on one character with a code point below 256: the letters
    A-Z and the accented capitals 192-222 other than the multiplication
    sign move up by 32. *)
Definition str_lower_char (a : ascii) : ascii :=
  let c := N_of_ascii a in
  if (((65 <=? c) && (c <=? 90))
      || ((192 <=? c) && (c <=? 222) && negb (c =? 215)))%N
  then ascii_of_N (c + 32) else a.

Fixpoint str_lower (s : string) : string :=
  match s with
  | EmptyString => EmptyString
  | String a s' => String (str_lower_char a) (str_lower s')
  end.

(** [needle in hay] for two [str]. *)
Fixpoint contains (needle hay : string) : bool :=
  String.prefix needle hay
  || match hay with
     | EmptyString => false
     | String _ hay' => contains needle hay'
     end.

(** The terminal: the lines that [input()] has still to return and the
    texts written to [sys.stdout] so far. *)
Record console := { stdin : list string; written : list string }.

Record SteemWalletRPC := {
  host : string;
  port : Z;
  username : string;
  password : string;
  headers : list (string * string)
}.

Definition SteemWalletRPC__init__ (host : string) (port : Z)
           (username password : string) : SteemWalletRPC :=
  {| host := host; port := port; username := username; password := password;
     headers := [("content-type", "application/json")] |}.

(** The dict [valid] of [_confirm]. *)
Definition valid : list (string * bool) :=
  [("yes", true); ("y", true); ("ye", true); ("no", false); ("n", false)].

Definition valid_getitem (k : string) : outcome bool :=
  match dict_get valid k with
  | Some b => Return b
  | None => Raises (KeyError k)
  end.

Definition complaint : string :=
  "Please respond with 'yes' or 'no' (or 'y' or 'n')." +:+ String "010" "".

(** The loop [while True] of [_confirm]; [input()] raises [EOFError] when no
    line is left. *)
Fixpoint _confirm_loop (text : string) (default : option string)
         (lines : list string) (out : list string) : outcome bool * console :=
  let out := out ++ [text] in
  match lines with
  | [] => (Raises EOFError, {| stdin := []; written := out |})
  | line :: lines' =>
      let choice := str_lower line in
      let otherwise :=
        if bool_decide (is_Some (dict_get valid choice))
        then (valid_getitem choice, {| stdin := lines'; written := out |})
        else _confirm_loop text default lines' (out ++ [complaint]) in
      match default with
      | Some d =>
          if String.eqb choice ""
          then (valid_getitem d, {| stdin := lines'; written := out |})
          else otherwise
      | None => otherwise
      end
  end.

(** The choice of [prompt] at the head of [_confirm]. *)
Definition prompt_for (default : option string) : outcome string :=
  match default with
  | None => Return " [y/n] "
  | Some d =>
      if String.eqb d "yes" then Return " [Y/n] "
      else if String.eqb d "no" then Return " [y/N] "
      else Raises (ValueError ("invalid default answer: '" +:+ d +:+ "'"))
  end.

Definition _confirm (question : string) (default : option string)
           (c : console) : outcome bool * console :=
  match prompt_for default with
  | Return prompt =>
      _confirm_loop (question +:+ prompt) default (stdin c) (written c)
  | Raises e => (Raises e, c)
  end.

(** What is written for the lines that are turned down: the question and
    the complaint, once for each. *)
Definition asked_again (text : string) (lines : list string) : list string :=
  lines ≫= (λ _, [text; complaint]).

(** The answer that one line of input stands for, if it stands for one. *)
Definition reply (default : option string) (line : string) : option bool :=
  match default, str_lower line with
  | Some d, EmptyString => dict_get valid d
  | _, choice => dict_get valid choice
  end.

(** [key in x] and [x[key]] for a [str] key and a decoded JSON value. *)
Definition json_in (key : string) (x : json) : outcome bool :=
  match x with
  | JObj d => Return (bool_decide (is_Some (dict_get d key)))
  | JArr l => Return (existsb (λ y, match y with
                                    | JStr s => String.eqb s key
                                    | _ => false
                                    end) l)
  | JStr s => Return (contains key s)
  | _ => Raises TypeError
  end.

Definition json_getitem (x : json) (key : string) : outcome json :=
  match x with
  | JObj d =>
      match dict_get d key with
      | Some v => Return v
      | None => Raises (KeyError key)
      end
  | _ => Raises TypeError
  end.

Definition obind {A B} (r : outcome A) (k : A → outcome B) : outcome B :=
  match r with
  | Return a => k a
  | Raises e => Raises e
  end.

(** What [requests.post] is given and what comes of it. *)
Record request := {
  url : string;
  body : string;
  req_headers : list (string * string);
  auth : string * string
}.

Record response := { status_code : Z; text : string }.

Section Client.

(** The network ([None] where [requests.post] raises a
    [RequestException]), [json.dumps] on a payload and [json.loads] on a
    text ([None] where it raises [JSONDecodeError], a [ValueError]). *)
Variable post : request → option response.
Variable dumps : json → string.
Variable loads : string → option json.

Definition request_of (self : SteemWalletRPC) (payload : json) : request :=
  {| url := "http://" +:+ host self +:+ ":" +:+ format_d (port self) +:+ "/rpc";
     body := dumps payload;
     req_headers := headers self;
     auth := (username self, password self) |}.

(** The body of the [try] of [rpcexec]: the decoded answer. *)
Definition rpcexec_try (self : SteemWalletRPC) (payload : json) : outcome json :=
  obind (match post (request_of self payload) with
         | Some response => Return response
         | None => Raises RequestException
         end) (λ response,
    if (status_code response =? 401)%Z then Raises (UnauthorizedError None)
    else
      obind (match loads (text response) with
             | Some ret => Return ret
             | None => Raises JSONDecodeError
             end) (λ ret,
        obind (json_in "error" ret) (λ has_error,
          if has_error then
            obind (json_getitem ret "error") (λ error,
              obind (json_in "detail" error) (λ has_detail,
                if has_detail
                then obind (json_getitem error "detail") (λ x, Raises (RPCError x))
                else obind (json_getitem error "message") (λ x, Raises (RPCError x))))
          else Return ret))).

Definition rpcexec (self : SteemWalletRPC) (payload : json) : outcome json :=
  match rpcexec_try self payload with
  | Raises RequestException => Raises (RPCConnection "Error connecting to Client!")
  | Raises (UnauthorizedError _) =>
      Raises (UnauthorizedError (Some "Invalid login credentials!"))
  | Raises (ValueError _) | Raises JSONDecodeError =>
      Raises (ValueError "Client returned invalid format. Expected JSON!")
  | Raises (RPCError x) => Raises (RPCError x)
  | Raises e => Raises e
  | Return ret => json_getitem ret "result"
  end.

(** The function [method] that [__getattr__] returns for [name]. *)
Definition method (self : SteemWalletRPC) (name : string) (args : list json)
  : outcome json :=
  let query := JObj [("method", JStr name); ("params", JArr args);
                     ("jsonrpc", JStr "2.0"); ("id", JInt 0)] in
  rpcexec self query.

End Client.

(** What [rpcexec] makes of a decoded answer, case by case. *)
Definition answer (ret : json) : outcome json :=
  match ret with
  | JObj d =>
      match dict_get d "error" with
      | None => json_getitem ret "result"
      | Some (JObj e) =>
          match dict_get e "detail" with
          | Some x => Raises (RPCError x)
          | None =>
              match dict_get e "message" with
              | Some x => Raises (RPCError x)
              | None => Raises (KeyError "message")
              end
          end
      | Some _ => Raises TypeError
      end
  | _ => Raises TypeError
  end.

End steemwalletrpc.

(** * The registry *)

Lemma operations_items :
  operations =
  [("vote", 0%Z); ("comment", 1%Z); ("transfer", 2%Z);
   ("transfer_to_vesting", 3%Z); ("withdraw_vesting", 4%Z);
   ("limit_order_create", 5%Z); ("limit_order_cancel", 6%Z);
   ("feed_publish", 7%Z); ("convert", 8%Z); ("account_create", 9%Z);
   ("account_update", 10%Z); ("witness_update", 11%Z);
   ("account_witness_vote", 12%Z); ("account_witness_proxy", 13%Z);
   ("pow", 14%Z); ("custom", 15%Z); ("report_over_production", 16%Z);
   ("fill_convert_request", 17%Z); ("comment_reward", 18%Z);
   ("curate_reward", 19%Z); ("liquidity_reward", 20%Z); ("interest", 21%Z);
   ("fill_vesting_withdraw", 22%Z); ("fill_order", 23%Z)].
Proof. reflexivity. Qed.

Lemma dict_get_In {V} (d : list (string * V)) (k : string) (v : V) :
  dict_get d k = Some v → In (k, v) d.
Proof.
  induction d as [|[k' v'] d IH]; simpl; [discriminate|].
  destruct (String.eqb_spec k' k) as [->|_].
  - intros [= ->]. by left.
  - intros H. right. by apply IH.
Qed.

Lemma operations_getitem_In (n : string) (i : Z) :
  operations_getitem (PVal (VStr n)) = Ok i → In (n, i) operations.
Proof.
  unfold operations_getitem.
  destruct (dict_get operations n) as [j|] eqn:E; [|discriminate].
  intros [= ->]. by apply dict_get_In.
Qed.

Lemma loop_absent (keys : list string) (i : Z) :
  Forall (λ key, ∃ v, dict_get operations key = Some v ∧ v ≠ i) keys →
  getOperationNameForId_loop keys i = Ok None.
Proof.
  induction 1 as [|key keys (v & Hget & Hne) _ IH]; [reflexivity|].
  cbn [getOperationNameForId_loop operations_getitem].
  rewrite Hget. cbn [rbind]. unfold int_is.
  destruct (Z.eqb_spec v i); [done|]. exact IH.
Qed.

Lemma In_dict_get {V} (d : list (string * V)) (k : string) (v : V) :
  NoDup (d.*1) → In (k, v) d → dict_get d k = Some v.
Proof.
  induction d as [|[k' v'] d IH]; cbn [dict_get In fmap list_fmap fst];
    [done|].
  intros [Hk' Hd]%NoDup_cons [[= -> ->]|Hin].
  - by rewrite String.eqb_refl.
  - destruct (String.eqb_spec k' k) as [->|_]; [|by apply IH].
    destruct Hk'. apply list_elem_of_In, in_map_iff. by exists (k, v).
Qed.

Lemma registered_once (a b : string) (i : Z) :
  dict_get operations a = Some i → dict_get operations b = Some i → a = b.
Proof.
  assert (∀ d : list (string * Z), NoDup (d.*2) →
            In (a, i) d → In (b, i) d → a = b) as Hinj.
  { induction d as [|[k v] d IH]; cbn [In fmap list_fmap snd]; [done|].
    intros [Hv Hd]%NoDup_cons [[= -> ->]|Ha] [[= ->]|Hb]; try done.
    - destruct Hv. apply list_elem_of_In, in_map_iff. by exists (b, i).
    - subst v. destruct Hv. apply list_elem_of_In, in_map_iff. by exists (a, i).
    - by apply IH. }
  intros Ha%dict_get_In Hb%dict_get_In. apply (Hinj operations); try done.
  by apply (bool_decide_unpack _); vm_compute.
Qed.

Lemma loop_found (keys : list string) (i : Z) (n : string) :
  Forall (λ key, is_Some (dict_get operations key)) keys →
  n ∈ keys → dict_get operations n = Some i →
  getOperationNameForId_loop keys i = Ok (Some n).
Proof.
  intros Hreg Hn Hi.
  induction Hreg as [|key keys [v Hv] _ IH]; [by apply elem_of_nil in Hn|].
  cbn [getOperationNameForId_loop operations_getitem].
  rewrite Hv. cbn [rbind]. unfold int_is.
  destruct (Z.eqb_spec v i) as [->|Hne].
  - by rewrite (registered_once key n i).
  - apply IH. apply elem_of_cons in Hn as [->|Hn]; [congruence|done].
Qed.

(** The name found does not depend on the order in which the keys of the
    dict are visited. *)
Lemma loop_any_order (keys : list string) (i : Z) :
  keys ≡ₚ operations.*1 →
  getOperationNameForId_loop keys i
  = getOperationNameForId_loop (operations.*1) i.
Proof.
  intros Hperm.
  assert (Forall (λ key, is_Some (dict_get operations key)) (operations.*1))
    as Hreg.
  { apply Forall_forall. intros key ([k v] & -> & Hin)%list_elem_of_fmap.
    exists v. apply In_dict_get; [|by apply list_elem_of_In].
    by apply (bool_decide_unpack _); vm_compute. }
  destruct (decide (i ∈ operations.*2)) as [Hi|Hi].
  - apply list_elem_of_fmap in Hi as ([n j] & -> & Hin).
    assert (dict_get operations n = Some j) as Hget.
    { apply In_dict_get; [|by apply list_elem_of_In].
      by apply (bool_decide_unpack _); vm_compute. }
    assert (n ∈ operations.*1) as Hn by (by apply (list_elem_of_fmap_2 fst _ (n, j))).
    rewrite !(loop_found _ j n); by rewrite ?Hperm.
  - assert (Forall (λ key, ∃ v, dict_get operations key = Some v ∧ v ≠ i)
              (operations.*1)) as Habs.
    { eapply Forall_impl; [exact Hreg|].
      intros key [v Hv]. exists v. split; [done|]. intros ->.
      apply Hi, list_elem_of_fmap. exists (key, i).
      split; [done|]. by apply list_elem_of_In, dict_get_In. }
    rewrite !loop_absent; by rewrite ?Hperm.
Qed.

(** C2: the registry holds exactly the 24 pairs vote=0 .. fill_order=23,
    no name and no id occurs twice, and for every registered name [n] the
    name found for the id of [n] is [n] again. *)
Theorem registry_bijection :
  operations =
    [("vote", 0%Z); ("comment", 1%Z); ("transfer", 2%Z);
     ("transfer_to_vesting", 3%Z); ("withdraw_vesting", 4%Z);
     ("limit_order_create", 5%Z); ("limit_order_cancel", 6%Z);
     ("feed_publish", 7%Z); ("convert", 8%Z); ("account_create", 9%Z);
     ("account_update", 10%Z); ("witness_update", 11%Z);
     ("account_witness_vote", 12%Z); ("account_witness_proxy", 13%Z);
     ("pow", 14%Z); ("custom", 15%Z); ("report_over_production", 16%Z);
     ("fill_convert_request", 17%Z); ("comment_reward", 18%Z);
     ("curate_reward", 19%Z); ("liquidity_reward", 20%Z); ("interest", 21%Z);
     ("fill_vesting_withdraw", 22%Z); ("fill_order", 23%Z)]
  ∧ length operations = 24
  ∧ NoDup (operations.*1)
  ∧ NoDup (operations.*2)
  ∧ ∀ (n : string) (i : Z),
      operations_getitem (PVal (VStr n)) = Ok i →
      getOperationNameForId i = Ok n.
Proof.
  split; [exact operations_items|].
  split; [reflexivity|].
  split; [by apply (bool_decide_unpack _); vm_compute|].
  split; [by apply (bool_decide_unpack _); vm_compute|].
  intros n i H%operations_getitem_In.
  rewrite operations_items in H. simpl in H.
  repeat (destruct H as [[= <- <-]|H]; [by vm_compute|]).
  destruct H.
Qed.

Lemma registry_bijection_witness :
  getOperationNameForId 13 = Ok "account_witness_proxy".
Proof.
  apply (proj2 (proj2 (proj2 (proj2 registry_bijection)))).
  reflexivity.
Defined.



(** C7: for a name that the registry holds but that is neither "vote" nor
    "comment", building an [Operation] from the name and anything raises
    [NotImplementedError]; no object is made and nothing is printed. *)
Theorem unimplemented_variant (n : string) (x : pyobj) (st : state) :
  n ∈ operations.*1 → n ≠ "vote" → n ≠ "comment" →
  ∃ cn, capitalize_first n = Ok cn
        ∧ Operation__init__ (PList [PVal (VStr n); x]) st
          = (Raise (NotImplementedError ("Unimplemented Operation " +:+ cn)), st).
Proof.
  intros H%list_elem_of_In Hv Hc.
  rewrite operations_items in H. simpl in H.
  repeat (destruct H as [<-|H];
          [first [done | eexists; split; [reflexivity | by vm_compute]]|]).
  destruct H.
Qed.

Lemma unimplemented_variant_witness :
  ∃ cn, capitalize_first "transfer" = Ok cn
        ∧ Operation__init__ (PList [PVal (VStr "transfer"); PDict ∅]) initial
          = (Raise (NotImplementedError ("Unimplemented Operation " +:+ cn)),
             initial).
Proof.
  apply (unimplemented_variant "transfer" (PDict ∅) initial).
  - apply list_elem_of_In. simpl. tauto.
  - discriminate.
  - discriminate.
Defined.

(** * Variants and the dispatcher *)

(** One step of the list handed to [OrderedDict]: a value is looked up and
    wrapped, and the first failure ends the construction. *)
Ltac init_steps :=
  repeat
    match goal with
    | |- context [Types.String__init__ ?v] =>
        destruct (Types.String__init__ v) as [?x|?e];
        cbn [rbind wrap bind lift ret]; [|reflexivity]
    | |- context [Types.Int16__init__ ?v] =>
        destruct (Types.Int16__init__ v) as [?x|?e];
        cbn [rbind wrap bind lift ret]; [|reflexivity]
    | |- context [getitem ?x ?f] =>
        destruct (getitem x f) as [?v|?e];
        cbn [rbind wrap bind lift ret]; [|reflexivity]
    end.

Section Construction.

Variable st : state.

Lemma klass_id_registered (k : klass) :
  operations_getitem (PVal (VStr (registry_name k))) = Ok (klass_id k).
Proof. by destruct k. Qed.

(** A keyword named [self] stops the call before the body of [__init__]. *)
Lemma call_klass_self (k : klass) (args : list pyobj) (kw : gmap string value) :
  is_Some (kw !! "self") → call_klass k args kw st = (Raise TypeError, st).
Proof. intros H. unfold call_klass. by rewrite bool_decide_true. Qed.

Lemma call_klass_no_self (k : klass) (args : list pyobj) (kw : gmap string value) :
  kw !! "self" = None →
  call_klass k args kw st
  = match k with
    | Vote => Vote__init__ args kw
    | Comment => Comment__init__ args kw
    end st.
Proof.
  intros H. unfold call_klass. rewrite bool_decide_false; [done|].
  rewrite H. by intros [? ?].
Qed.

(** Building a variant from one positional argument that is not a value of
    the class itself, or from keyword arguments, is [build_items] followed
    by one allocation. *)
Lemma call_klass_positional (k : klass) (a : pyobj) :
  Objects.isArgsThisClass k [a] = false →
  call_klass k [a] ∅ st = built st k (build_items (schema k) a).
Proof.
  intros Hnot. rewrite call_klass_no_self by apply lookup_empty.
  destruct k; cbn [schema build_items];
    unfold Vote__init__, Comment__init__; rewrite Hnot;
    rewrite map_size_empty;
    cbn [length Nat.eqb andb first_arg bind lift].
  all: init_steps; reflexivity.
Qed.

Lemma call_klass_keywords (k : klass) (m : gmap string value) :
  m !! "self" = None →
  call_klass k [] m st = built st k (build_items (schema k) (PDict m)).
Proof.
  intros Hself. rewrite call_klass_no_self by done.
  destruct k; cbn [schema build_items];
    unfold Vote__init__, Comment__init__;
    cbn [Objects.isArgsThisClass length Nat.eqb andb bind ret].
  all: init_steps; reflexivity.
Qed.

Lemma Operation__init__pair (k : klass) (a : pyobj) :
  Operation__init__ (PList [PVal (VStr (registry_name k)); a]) st =
  match call_klass k [a] ∅ st with
  | (Ok o, st') =>
      (Ok {| opId := klass_id k; name := class_name k; op := PObj o |}, st')
  | (Raise e, st') => (Raise e, st')
  end.
Proof. by destruct k. Qed.

Lemma Operation__init__value (o : GrapheneObject) :
  Operation__init__ (PObj o) st =
  (Ok {| opId := klass_id (type_ o); name := registry_name (type_ o);
         op := PObj o |},
   with_printed st (registry_name (type_ o))).
Proof. by destruct o as [[] d]. Qed.

End Construction.

Section Encoding.

Variable st : state.

Lemma not_this_class (k : klass) (m : gmap string value) :
  Objects.isArgsThisClass k [PDict m] = false.
Proof. by destruct k. Qed.

Lemma heap_new_lookup (items : OrderedDict) :
  heap (with_new st items) !! length (heap st) = Some items.
Proof. by apply list_lookup_middle. Qed.

Lemma Operation__bytes__obj (i : Z) (nm : string) (o : GrapheneObject)
      (s : state) :
  Operation__bytes__ {| opId := i; name := nm; op := PObj o |} s =
  (rbind (Types.Id__bytes__ i) (λ b1,
     match heap s !! data o with
     | Some d => rbind (Objects.bytes_items d) (λ b2, Ok (b1 ++ b2))
     | None => Raise SystemError
     end), s).
Proof.
  unfold Operation__bytes__, py_bytes, Objects.GrapheneObject__bytes__,
    bind, lift, load, ret; cbn [opId op].
  destruct (Types.Id__bytes__ i); cbn [rbind]; [|reflexivity].
  destruct (heap s !! data o); [|reflexivity].
  by destruct (Objects.bytes_items _).
Qed.

Lemma Id__bytes__klass (k : klass) :
  Types.Id__bytes__ (klass_id k) = Ok (Types.varint (Z.to_N (klass_id k))).
Proof. by destruct k. Qed.

(** Both ways of building and encoding an operation, in terms of the
    items of the variant. *)
Lemma encode_from_pair_run (k : klass) (m : gmap string value) :
  encode_from_pair (registry_name k) m st =
  match build_items (schema k) (PDict m) with
  | Ok items =>
      (rbind (Objects.bytes_items items) (λ b,
         Ok (Types.varint (Z.to_N (klass_id k)) ++ b)),
       with_new st items)
  | Raise e => (Raise e, st)
  end.
Proof.
  unfold encode_from_pair, bind.
  rewrite Operation__init__pair, call_klass_positional by apply not_this_class.
  destruct (build_items _ _) as [items|e]; cbn [built]; [|reflexivity].
  rewrite Operation__bytes__obj, Id__bytes__klass. cbn [rbind data].
  by rewrite heap_new_lookup.
Qed.

Lemma encode_from_value_run (k : klass) (m : gmap string value) :
  encode_from_value k m st =
  match build_items (schema k) (PDict m) with
  | Ok items =>
      (rbind (Objects.bytes_items items) (λ b,
         Ok (Types.varint (Z.to_N (klass_id k)) ++ b)),
       with_printed (with_new st items) (registry_name k))
  | Raise e => (Raise e, st)
  end.
Proof.
  unfold encode_from_value, bind.
  rewrite call_klass_positional by apply not_this_class.
  destruct (build_items _ _) as [items|e]; cbn [built]; [|reflexivity].
  rewrite Operation__init__value, Operation__bytes__obj. cbn [type_ data].
  rewrite Id__bytes__klass. cbn [rbind with_printed heap].
  by rewrite heap_new_lookup.
Qed.

Lemma encode_from_pair_wire (k : klass) (m : gmap string value) :
  (encode_from_pair (registry_name k) m st).1 = wire k m.
Proof.
  rewrite encode_from_pair_run. unfold wire.
  by destruct (build_items _ _).
Qed.

Lemma encode_from_value_wire (k : klass) (m : gmap string value) :
  (encode_from_value k m st).1 = wire k m.
Proof.
  rewrite encode_from_value_run. unfold wire.
  by destruct (build_items _ _).
Qed.

End Encoding.

(** A valid field map builds, and what it builds encodes. *)
Lemma build_items_valid (sch : list (string * ftype)) (m : gmap string value) :
  forallb (λ ft, match m !! ft.1 with
                 | Some v => valid_value ft.2 v
                 | None => false
                 end) sch = true →
  ∃ items b, build_items sch (PDict m) = Ok items
             ∧ Objects.bytes_items items = Ok b.
Proof.
  induction sch as [|[f t] sch IH]; cbn [forallb build_items fst snd].
  - intros _. by exists [], [].
  - intros [Hf (items & b & -> & Hb)%IH]%andb_true_iff.
    cbn [getitem]. destruct (m !! f) as [v|]; [|discriminate].
    destruct t, v as [s|z]; try discriminate; cbn in Hf.
    + eexists _, _. split; [reflexivity|].
      cbn [Objects.bytes_items Types.to_bytes Types.String__bytes__ rbind].
      by rewrite Hb.
    + eexists _, _. split; [reflexivity|].
      cbn [Objects.bytes_items Types.to_bytes rbind].
      unfold Types.Int16__bytes__. rewrite Hf. cbn [rbind]. by rewrite Hb.
Qed.

Lemma wire_valid (k : klass) (m : gmap string value) :
  valid_fields k m = true → ∃ b, wire k m = Ok b.
Proof.
  intros (items & b & Hi & Hb)%build_items_valid.
  unfold wire. rewrite Hi. cbn [rbind]. rewrite Hb. by eexists.
Qed.

(** Only the declared keys of a field map are ever read. *)
Lemma build_items_ext (sch : list (string * ftype)) (m1 m2 : gmap string value) :
  (∀ f, f ∈ sch.*1 → m1 !! f = m2 !! f) →
  build_items sch (PDict m1) = build_items sch (PDict m2).
Proof.
  induction sch as [|[f t] sch IH]; [reflexivity|].
  intros H. cbn [build_items getitem].
  rewrite (H f), IH; [reflexivity| |].
  - intros g Hg. apply H. cbn. by right.
  - cbn. by left.
Qed.

Lemma restrict_lookup (k : klass) (m : gmap string value) (f : string) :
  f ∈ fields k → restrict k m !! f = m !! f.
Proof.
  intros Hf. unfold restrict. rewrite map_lookup_filter.
  destruct (m !! f) as [v|]; [|reflexivity].
  cbn. by rewrite option_guard_True.
Qed.

(** When the list for [OrderedDict] cannot be put together, the first
    declared field that is absent or cannot be wrapped decides: every field
    before it was found and wrapped. *)
Lemma build_items_fails (sch : list (string * ftype)) (m : gmap string value)
      (e : exn) :
  build_items sch (PDict m) = Raise e →
  ∃ pre f t post,
    sch = pre ++ (f, t) :: post
    ∧ Forall (λ gu, ∃ v x, m !! gu.1 = Some v ∧ wrap gu.2 v = Ok x) pre
    ∧ ((m !! f = None ∧ e = KeyError (PVal (VStr f)))
       ∨ ∃ v, m !! f = Some v ∧ wrap t v = Raise e).
Proof.
  induction sch as [|[f t] sch IH]; cbn [build_items getitem]; [done|].
  destruct (m !! f) as [v|] eqn:Hf; cbn [rbind].
  - destruct (wrap t v) as [x|e'] eqn:Hx; cbn [rbind].
    + destruct (build_items sch (PDict m)) as [xs|e'] eqn:Hxs; [done|].
      intros [= ->].
      destruct (IH eq_refl) as (pre & g & u & post & -> & Hpre & Hg).
      exists ((f, t) :: pre), g, u, post. split; [done|]. split; [|done].
      apply Forall_cons. split; [by exists v, x|done].
    + intros [= ->]. exists [], f, t, sch. repeat split; [done|].
      right. by exists v.
  - intros [= <-]. exists [], f, t, sch. repeat split; [done|]. by left.
Qed.

(** A list that is put together has found every declared field. *)
Lemma build_items_all_present (sch : list (string * ftype))
      (m : gmap string value) (items : OrderedDict) :
  build_items sch (PDict m) = Ok items →
  ∀ f, f ∈ sch.*1 → is_Some (m !! f).
Proof.
  revert items. induction sch as [|[g t] sch IH]; intros items;
    cbn [build_items getitem fmap list_fmap fst].
  - intros _ f Hf. by apply elem_of_nil in Hf.
  - destruct (m !! g) as [v|] eqn:Hg; [|done]. cbn [rbind].
    destruct (wrap t v); [|done]. cbn [rbind].
    destruct (build_items sch (PDict m)) as [xs|]; [|done].
    intros _ f [->|Hf]%elem_of_cons; [by rewrite Hg|]. by eapply IH.
Qed.

(** In both classes a 16-bit field, where there is one, is the last. *)
Lemma int16_comes_last (k : klass) (pre post : list (string * ftype)) (f : string) :
  schema k = pre ++ (f, TInt16) :: post → post = [].
Proof.
  destruct k; cbn [schema]; intros H;
    repeat (destruct pre as [|[? ?] pre]; simplify_eq/=; try done).
Qed.

(** A field map that lacks a declared field cannot be built from: the
    failure comes from the first declared field that is absent or that holds
    something other than a text where a text is declared. *)
Lemma build_items_missing (k : klass) (m : gmap string value) :
  (∃ f, f ∈ fields k ∧ m !! f = None) →
  ∃ e pre f t post,
    build_items (schema k) (PDict m) = Raise e
    ∧ schema k = pre ++ (f, t) :: post
    ∧ Forall (λ gu, ∃ v x, m !! gu.1 = Some v ∧ wrap gu.2 v = Ok x) pre
    ∧ ((m !! f = None ∧ e = KeyError (PVal (VStr f)))
       ∨ ∃ z, t = TString ∧ m !! f = Some (VInt z) ∧ e = TypeError).
Proof.
  intros (g & Hg & Hnone).
  destruct (build_items (schema k) (PDict m)) as [items|e] eqn:Hb.
  { destruct (build_items_all_present _ _ _ Hb g Hg) as [v Hv]. congruence. }
  destruct (build_items_fails _ _ _ Hb)
    as (pre & f & t & post & Hsch & Hpre & [Hf|(v & Hv & Hwrap)]).
  { exists e, pre, f, t, post. repeat split; try done. by left. }
  destruct t.
  - destruct v as [s|z]; [done|]. injection Hwrap as <-.
    exists TypeError, pre, f, TString, post. repeat split; try done.
    right. by exists z.
  - exfalso. pose proof (int16_comes_last _ _ _ _ Hsch) as ->.
    unfold fields in Hg. rewrite Hsch, fmap_app in Hg.
    apply elem_of_app in Hg as [Hg|Hg%list_elem_of_singleton].
    + apply list_elem_of_fmap in Hg as (gu & -> & Hgu).
      rewrite Forall_forall in Hpre.
      destruct (Hpre gu Hgu) as (v' & _ & Hv' & _). congruence.
    + cbn in Hg. congruence.
Qed.

(** * Encoding of the two variants *)

(** C1: the Vote with voter "alice", author "bob", permlink "post1" and
    weight 100, wrapped as an Operation, encodes as the id 0 as a compact
    integer, then the three strings, each behind its length, then the weight
    as two little-endian bytes; built from the pair or from the value. *)
Theorem vote_encoding (st : state) :
  (encode_from_pair "vote" vote_alice st).1
  = Ok (Types.varint 0
        ++ (Types.varint 5 ++ Types.utf8 "alice")
        ++ (Types.varint 3 ++ Types.utf8 "bob")
        ++ (Types.varint 5 ++ Types.utf8 "post1")
        ++ Types.int16_le 100)
  ∧ (encode_from_value Vote vote_alice st).1
    = Ok (Types.varint 0
          ++ (Types.varint 5 ++ Types.utf8 "alice")
          ++ (Types.varint 3 ++ Types.utf8 "bob")
          ++ (Types.varint 5 ++ Types.utf8 "post1")
          ++ Types.int16_le 100)
  ∧ Types.varint 0
    ++ (Types.varint 5 ++ Types.utf8 "alice")
    ++ (Types.varint 3 ++ Types.utf8 "bob")
    ++ (Types.varint 5 ++ Types.utf8 "post1")
    ++ Types.int16_le 100
    = [x00; x05; x61; x6c; x69; x63; x65; x03; x62; x6f; x62;
       x05; x70; x6f; x73; x74; x31; x64; x00].
Proof.
  change "vote" with (registry_name Vote).
  rewrite encode_from_pair_wire, encode_from_value_wire.
  repeat split; by vm_compute.
Qed.

(** C9: the Comment with empty parent_author and parent_permlink, author
    "carol", permlink "p2", title "Hi", body "Body" and json_metadata "{}",
    wrapped as an Operation, encodes as the id 1 as a compact integer
    followed by the seven strings in declared order, each behind its
    length, and nothing else. *)
Theorem comment_encoding (st : state) :
  (encode_from_pair "comment" comment_carol st).1
  = Ok (Types.varint 1
        ++ prefixed "" ++ prefixed "" ++ prefixed "carol" ++ prefixed "p2"
        ++ prefixed "Hi" ++ prefixed "Body" ++ prefixed "{}")
  ∧ (encode_from_value Comment comment_carol st).1
    = Ok (Types.varint 1
          ++ prefixed "" ++ prefixed "" ++ prefixed "carol" ++ prefixed "p2"
          ++ prefixed "Hi" ++ prefixed "Body" ++ prefixed "{}")
  ∧ Types.varint 1
    ++ prefixed "" ++ prefixed "" ++ prefixed "carol" ++ prefixed "p2"
    ++ prefixed "Hi" ++ prefixed "Body" ++ prefixed "{}"
    = [x01; x00; x00; x05; x63; x61; x72; x6f; x6c; x02; x70; x32;
       x02; x48; x69; x04; x42; x6f; x64; x79; x02; x7b; x7d].
Proof.
  change "comment" with (registry_name Comment).
  rewrite encode_from_pair_wire, encode_from_value_wire.
  repeat split; by vm_compute.
Qed.

(** Whatever the field map, the two constructions end in the same result:
    the same bytes or the same exception. *)
Lemma both_constructions_same_result
      (k : klass) (m : gmap string value) (st : state) :
  (encode_from_pair (registry_name k) m st).1 = (encode_from_value k m st).1.
Proof. by rewrite encode_from_pair_wire, encode_from_value_wire. Qed.

(** C3: for Vote and for Comment and every valid field map, the Operation
    built from the pair of name and map and the Operation built from the
    variant value made of the same map encode to the same bytes, those of
    the wire format. *)
Theorem both_constructions_encode_alike
        (k : klass) (m : gmap string value) (st : state) :
  valid_fields k m = true →
  ∃ b, (encode_from_pair (registry_name k) m st).1 = Ok b
       ∧ (encode_from_value k m st).1 = Ok b
       ∧ wire k m = Ok b.
Proof.
  intros [b Hb]%wire_valid. exists b.
  by rewrite encode_from_pair_wire, encode_from_value_wire.
Qed.

Lemma both_constructions_encode_alike_witness :
  ∃ b, (encode_from_pair "comment" comment_carol initial).1 = Ok b
       ∧ (encode_from_value Comment comment_carol initial).1 = Ok b
       ∧ wire Comment comment_carol = Ok b.
Proof.
  apply (both_constructions_encode_alike Comment comment_carol initial).
  vm_compute. reflexivity.
Defined.

(** Counterexample to C6 as stated: a Vote map with the number 5 as voter
    and no weight lacks a declared field, yet building the Vote does not
    fail for the absent weight: the voter is validated first and the
    construction raises for the invalid value. *)
Lemma invalid_value_precedes_missing_field :
  (∃ f, f ∈ fields Vote ∧ vote_voter_5 !! f = None)
  ∧ call_klass Vote [PDict vote_voter_5] ∅ initial = (Raise TypeError, initial)
  ∧ ∀ f, call_klass Vote [PDict vote_voter_5] ∅ initial
         ≠ (Raise (KeyError (PVal (VStr f))), initial).
Proof.
  split; [|split].
  - exists "weight". split; [|by vm_compute].
    apply list_elem_of_In. cbn. tauto.
  - by vm_compute.
  - intros f. by vm_compute.
Qed.

(** C6, amended: when a field map lacks a declared field of the variant,
    building the variant fails, and so do building the Operation and the
    two build-and-encode programs, with the state as before: no object has
    been made and no bytes exist.  The declared fields are handled in order
    and the first one that is absent or holds no text where a text is
    declared decides: an absent one raises [KeyError] naming it, a number
    in place of a text raises the error for the invalid value.  With a text
    in every declared string field that the map holds, the failure is the
    [KeyError] of the first absent declared field. *)
Theorem missing_field_fails (k : klass) (m : gmap string value) (st : state) :
  (∃ f, f ∈ fields k ∧ m !! f = None) →
  ∃ e pre f t post,
    schema k = pre ++ (f, t) :: post
    ∧ Forall (λ gu, ∃ v x, m !! gu.1 = Some v ∧ wrap gu.2 v = Ok x) pre
    ∧ ((m !! f = None ∧ e = KeyError (PVal (VStr f)))
       ∨ ∃ z, t = TString ∧ m !! f = Some (VInt z) ∧ e = TypeError)
    ∧ ((∀ g z, (g, TString) ∈ schema k → m !! g ≠ Some (VInt z)) →
       m !! f = None ∧ e = KeyError (PVal (VStr f)))
    ∧ call_klass k [PDict m] ∅ st = (Raise e, st)
    ∧ Operation__init__ (PList [PVal (VStr (registry_name k)); PDict m]) st
      = (Raise e, st)
    ∧ encode_from_pair (registry_name k) m st = (Raise e, st)
    ∧ encode_from_value k m st = (Raise e, st).
Proof.
  intros (e & pre & f & t & post & Hraise & Hsch & Hpre & Hcase)%build_items_missing.
  exists e, pre, f, t, post. split; [done|]. split; [done|]. split; [done|].
  split.
  - intros Hstr. destruct Hcase as [?|(z & -> & Hz & _)]; [done|].
    destruct (Hstr f z); [|done].
    rewrite Hsch. apply elem_of_app. right. by left.
  - rewrite encode_from_pair_run, encode_from_value_run, Operation__init__pair,
      call_klass_positional by apply not_this_class.
    by rewrite Hraise.
Qed.

Lemma missing_field_fails_witness :
  ∃ e pre f t post,
    schema Vote = pre ++ (f, t) :: post
    ∧ Forall (λ gu, ∃ v x, delete "weight" vote_alice !! gu.1 = Some v
                           ∧ wrap gu.2 v = Ok x) pre
    ∧ ((delete "weight" vote_alice !! f = None ∧ e = KeyError (PVal (VStr f)))
       ∨ ∃ z, t = TString ∧ delete "weight" vote_alice !! f = Some (VInt z)
              ∧ e = TypeError)
    ∧ ((∀ g z, (g, TString) ∈ schema Vote →
               delete "weight" vote_alice !! g ≠ Some (VInt z)) →
       delete "weight" vote_alice !! f = None ∧ e = KeyError (PVal (VStr f)))
    ∧ call_klass Vote [PDict (delete "weight" vote_alice)] ∅ initial
      = (Raise e, initial)
    ∧ Operation__init__
        (PList [PVal (VStr (registry_name Vote));
                PDict (delete "weight" vote_alice)]) initial
      = (Raise e, initial)
    ∧ encode_from_pair (registry_name Vote) (delete "weight" vote_alice) initial
      = (Raise e, initial)
    ∧ encode_from_value Vote (delete "weight" vote_alice) initial
      = (Raise e, initial).
Proof.
  apply (missing_field_fails Vote (delete "weight" vote_alice) initial).
  exists "weight". split.
  - apply list_elem_of_In. simpl. tauto.
  - vm_compute. reflexivity.
Defined.

(** Counterexample to C10 as stated: a Vote map that holds all four
    declared fields and an extra key, with the text "abc" as weight; building
    the Vote does not succeed, [int] raises [ValueError]. *)
Lemma all_fields_present_yet_no_variant :
  (∀ f, f ∈ fields Vote → is_Some (vote_weight_abc !! f))
  ∧ vote_weight_abc !! "memo" = Some (VStr "x")
  ∧ call_klass Vote [PDict vote_weight_abc] ∅ initial
    = (Raise ValueError, initial)
  ∧ encode_from_pair "vote" vote_weight_abc initial
    = (Raise ValueError, initial).
Proof.
  split; [|repeat split; by vm_compute].
  intros f Hf%list_elem_of_In. cbn in Hf.
  repeat (destruct Hf as [<-|Hf]; [eexists; by vm_compute|]). destruct Hf.
Qed.

(** C10, amended: keys that are not declared fields are ignored.  Building
    a variant, and building and encoding an Operation, give the same result
    and the same state for a field map as for the map cut down to the
    declared fields; and for a map that holds a valid value for every
    declared field (a text for a string field, an integer of the signed
    16-bit range for the weight), whatever else it holds, building succeeds
    and the same bytes come out for both. *)
Theorem undeclared_keys_ignored (k : klass) (m : gmap string value) (st : state) :
  call_klass k [PDict m] ∅ st = call_klass k [PDict (restrict k m)] ∅ st
  ∧ encode_from_pair (registry_name k) m st
    = encode_from_pair (registry_name k) (restrict k m) st
  ∧ encode_from_value k m st = encode_from_value k (restrict k m) st
  ∧ (valid_fields k m = true →
     ∃ items b,
       call_klass k [PDict m] ∅ st
       = (Ok {| type_ := k; data := length (heap st) |}, with_new st items)
       ∧ encode_from_pair (registry_name k) m st = (Ok b, with_new st items)
       ∧ encode_from_pair (registry_name k) (restrict k m) st
         = (Ok b, with_new st items)).
Proof.
  assert (build_items (schema k) (PDict (restrict k m))
          = build_items (schema k) (PDict m)) as Hsame.
  { apply build_items_ext. intros f Hf. by apply restrict_lookup. }
  rewrite !encode_from_pair_run, !encode_from_value_run,
    !call_klass_positional, Hsame by apply not_this_class.
  repeat split.
  intros (items & b & -> & Hb)%build_items_valid.
  cbn [built]. rewrite Hb. cbn [rbind]. by eexists _, _.
Qed.

Lemma undeclared_keys_ignored_witness :
  ∃ items b,
    call_klass Vote [PDict (<["memo" := VStr "x"]> vote_alice)] ∅ initial
    = (Ok {| type_ := Vote; data := length (heap initial) |},
       with_new initial items)
    ∧ encode_from_pair (registry_name Vote)
        (<["memo" := VStr "x"]> vote_alice) initial
      = (Ok b, with_new initial items)
    ∧ encode_from_pair (registry_name Vote)
        (restrict Vote (<["memo" := VStr "x"]> vote_alice)) initial
      = (Ok b, with_new initial items).
Proof.
  apply (undeclared_keys_ignored Vote (<["memo" := VStr "x"]> vote_alice) initial).
  vm_compute. reflexivity.
Defined.

(** * Sharing and output *)

Lemma dict_get_setitem {V} (d : list (string * V)) (k : string) (v : V) :
  dict_get (dict_setitem d k v) k = Some v.
Proof.
  induction d as [|[k' v'] d IH]; cbn [dict_setitem dict_get].
  - by rewrite String.eqb_refl.
  - destruct (String.eqb k' k) eqn:E; cbn [dict_get]; by rewrite E.
Qed.

Lemma this_class (o : GrapheneObject) :
  Objects.isArgsThisClass (type_ o) [PObj o] = true.
Proof. by destruct o as [[] d]. Qed.

(** Building a variant from a value of its own class allocates nothing: the
    new instance refers to the [data] of the old one. *)
Lemma call_klass_same_class (o : GrapheneObject) (st : state) :
  call_klass (type_ o) [PObj o] ∅ st
  = (Ok {| type_ := type_ o; data := data o |}, st).
Proof. by destruct o as [[] d]. Qed.

(** Counterexample to C5 as stated: a Vote is built with weight 100 and a
    second Vote is built from it; after the weight of the second has been
    set to 5, the weight read through the first is 5 as well.  Hence copies
    are not independent. *)
Lemma copy_mutation_reaches_source :
  (copy_then_set initial).1
  = Ok (Some (Types.Int16 100), Some (Types.Int16 5))
  ∧ ¬ copies_independent.
Proof.
  split; [by vm_compute|].
  intros H.
  pose (items := [("voter", Types.String (VStr "alice"));
                  ("author", Types.String (VStr "bob"));
                  ("permlink", Types.String (VStr "post1"));
                  ("weight", Types.Int16 100)]).
  pose (source := {| type_ := Vote; data := 0 |}).
  specialize (H Vote vote_alice initial
                (with_new initial items) (with_new initial items)
                {| heap := [dict_setitem items "weight" (Types.Int16 5)];
                   stdout := [] |}
                source source "weight" (Types.Int16 5)).
  assert ((get_field source "weight"
             {| heap := [dict_setitem items "weight" (Types.Int16 5)];
                stdout := [] |}).1
          = (get_field source "weight" (with_new initial items)).1) as Hsame.
  { apply H; by vm_compute. }
  vm_compute in Hsame. discriminate Hsame.
Qed.

(** C5, amended: building a Vote from a Vote, or a Comment from a Comment,
    copies no field.  The new instance refers to the very [data] of the
    source and the store is left as it was; a field set through the new
    instance is read back through the source, and both encode alike. *)
Theorem copy_shares_data
        (source : GrapheneObject) (st : state) (d : OrderedDict)
        (f : string) (v : Types.t) :
  heap st !! data source = Some d →
  ∃ copy st',
    call_klass (type_ source) [PObj source] ∅ st = (Ok copy, st)
    ∧ type_ copy = type_ source
    ∧ data copy = data source
    ∧ set_field copy f v st = (Ok tt, st')
    ∧ (get_field source f st').1 = Ok (Some v)
    ∧ ∀ s, Objects.GrapheneObject__bytes__ copy s
           = Objects.GrapheneObject__bytes__ source s.
Proof.
  intros Hd.
  exists {| type_ := type_ source; data := data source |}.
  eexists. split; [apply call_klass_same_class|].
  split; [reflexivity|]. split; [reflexivity|].
  unfold set_field; cbn [data]. rewrite Hd.
  split; [reflexivity|]. split; [|reflexivity].
  unfold get_field, bind, load, ret; cbn [heap].
  rewrite list_lookup_insert_eq by (by eapply lookup_lt_Some).
  cbn [fst]. by rewrite dict_get_setitem.
Qed.

Lemma copy_shares_data_witness :
  ∃ copy st',
    call_klass Vote [PObj {| type_ := Vote; data := 0 |}] ∅
      (with_new initial [("weight", Types.Int16 100)])
    = (Ok copy, with_new initial [("weight", Types.Int16 100)])
    ∧ type_ copy = Vote
    ∧ data copy = 0
    ∧ set_field copy "weight" (Types.Int16 5)
        (with_new initial [("weight", Types.Int16 100)]) = (Ok tt, st')
    ∧ (get_field {| type_ := Vote; data := 0 |} "weight" st').1
      = Ok (Some (Types.Int16 5))
    ∧ ∀ s, Objects.GrapheneObject__bytes__ copy s
           = Objects.GrapheneObject__bytes__ {| type_ := Vote; data := 0 |} s.
Proof.
  apply (copy_shares_data {| type_ := Vote; data := 0 |}
           (with_new initial [("weight", Types.Int16 100)])
           [("weight", Types.Int16 100)] "weight" (Types.Int16 5)).
  reflexivity.
Defined.

Lemma quiet_ret {A} (a : A) : quiet (ret a).
Proof. by intros st. Qed.

Lemma quiet_raise {A} (e : exn) : quiet (raise (A:=A) e).
Proof. by intros st. Qed.

Lemma quiet_lift {A} (r : result A) : quiet (lift r).
Proof. by intros st. Qed.

Lemma quiet_load (l : loc) : quiet (load l).
Proof. intros st. unfold load. by destruct (heap st !! l). Qed.

Lemma quiet_new_OrderedDict (items : OrderedDict) : quiet (new_OrderedDict items).
Proof. intros st. split; [reflexivity|]. by apply prefix_app_r. Qed.

Lemma quiet_bind {A B} (c : M A) (k : A → M B) :
  quiet c → (∀ a, quiet (k a)) → quiet (bind c k).
Proof.
  intros Hc Hk st. unfold bind. specialize (Hc st).
  destruct (c st) as [[a|e] st1]; cbn [snd] in *; [|done].
  destruct (Hk a st1) as [Hout Hheap]. split.
  - by rewrite Hout, (proj1 Hc).
  - by etrans; [apply Hc|].
Qed.

Create HintDb quiet.

#[local] Hint Resolve quiet_ret quiet_raise quiet_lift quiet_load
  quiet_new_OrderedDict : quiet.

Ltac quiet_steps :=
  repeat first
    [ apply quiet_bind; [|intros ?]
    | solve [auto with quiet]
    | match goal with
      | |- quiet (if ?b then _ else _) => destruct b
      | |- quiet (match ?x with _ => _ end) => destruct x
      end ].

Lemma quiet_call_klass (k : klass) (args : list pyobj) (kwargs : gmap string value) :
  quiet (call_klass k args kwargs).
Proof.
  unfold call_klass. destruct (bool_decide _); [auto with quiet|].
  destruct k; unfold Vote__init__, Comment__init__; quiet_steps.
Qed.

Lemma quiet_py_bytes (x : pyobj) : quiet (py_bytes x).
Proof.
  destruct x as [[s|n]|m|o|l]; cbn [py_bytes];
    unfold Objects.GrapheneObject__bytes__; quiet_steps.
Qed.

Lemma quiet_Operation__bytes__ (o : Operation) : quiet (Operation__bytes__ o).
Proof.
  unfold Operation__bytes__.
  apply quiet_bind; [auto with quiet|intros b1].
  apply quiet_bind; [apply quiet_py_bytes|auto with quiet].
Qed.

(** Building an Operation from a pair, and encoding any Operation, write
    nothing and touch no object that exists. *)
Lemma quiet_Operation__init__pair (op0 op1 : pyobj) :
  quiet (Operation__init__ (PList [op0; op1])).
Proof.
  cbn [Operation__init__].
  apply quiet_bind; [auto with quiet|intros i].
  apply quiet_bind; [auto with quiet|intros nm].
  apply quiet_bind; [destruct (eval nm); auto with quiet|intros k].
  apply quiet_bind; [apply quiet_call_klass|auto with quiet].
Qed.

(** C8 fails on the code: building an Operation from a variant value
    prints the lower-cased class name.  At the Vote of C1, built and
    encoded from the initial state, the standard output holds the line
    "vote" where the same Vote given as a pair leaves it empty. *)
Theorem construction_from_value_prints :
  (∀ o st, stdout (Operation__init__ (PObj o) st).2
           = stdout st ++ [registry_name (type_ o)])
  ∧ stdout (encode_from_value Vote vote_alice initial).2 = ["vote"]
  ∧ stdout (encode_from_pair "vote" vote_alice initial).2 = [].
Proof.
  split; [|split].
  - intros o st. by rewrite Operation__init__value.
  - by vm_compute.
  - by vm_compute.
Qed.

(** * The compact integer *)

(** The loop of [varint] gives the same bytes for any fuel that covers the
    seven-bit groups of [n]. *)
Lemma varint_loop_fuel (f1 f2 : nat) (n : N) :
  (n < 2 ^ (7 * N.of_nat (S f1)))%N → (n < 2 ^ (7 * N.of_nat (S f2)))%N →
  Types.varint_loop f1 n = Types.varint_loop f2 n.
Proof.
  revert f2 n. induction f1 as [|f1 IH]; intros [|f2] n H1 H2;
    cbn [Types.varint_loop]; try reflexivity.
  - change (2 ^ (7 * N.of_nat 1))%N with 128%N in H1.
    by destruct (N.ltb_spec n 128); [|lia].
  - change (2 ^ (7 * N.of_nat 1))%N with 128%N in H2.
    by destruct (N.ltb_spec n 128); [|lia].
  - destruct (N.ltb_spec n 128); [reflexivity|]. f_equal.
    assert (∀ f, (n < 2 ^ (7 * N.of_nat (S (S f))))%N →
                 (N.shiftr n 7 < 2 ^ (7 * N.of_nat (S f)))%N) as Hshift.
    { intros f Hf. rewrite N.shiftr_div_pow2.
      apply N.Div0.div_lt_upper_bound.
      rewrite <- N.pow_add_r.
      by replace (7 + 7 * N.of_nat (S f))%N with (7 * N.of_nat (S (S f)))%N by lia. }
    apply IH; by apply Hshift.
Qed.

Lemma size_covers (n : N) : (n < 2 ^ (7 * N.of_nat (S (N.to_nat (N.size n)))))%N.
Proof.
  eapply N.lt_le_trans; [apply N.size_gt|].
  apply N.pow_le_mono_r; lia.
Qed.

(** [varint] is the loop of the wire format, with no trace of the fuel:
    below 128 one byte, otherwise the low seven bits with the top bit set,
    then the rest. *)
Lemma varint_unfold (n : N) :
  Types.varint n =
  if (n <? 128)%N then [Types.byte_of_N n]
  else Types.byte_of_N (N.lor (N.land n 127) 128)
         :: Types.varint (N.shiftr n 7).
Proof.
  unfold Types.varint at 1.
  rewrite (varint_loop_fuel _ (S (N.to_nat (N.size n))) n)
    by (apply size_covers || (eapply N.lt_le_trans; [apply size_covers|];
                              apply N.pow_le_mono_r; lia)).
  cbn [Types.varint_loop]. destruct (N.ltb_spec n 128); [reflexivity|].
  f_equal. unfold Types.varint. apply varint_loop_fuel.
  - eapply N.le_lt_trans; [|apply size_covers].
    rewrite N.shiftr_div_pow2. apply N.Div0.div_le_upper_bound.
    nia.
  - apply size_covers.
Qed.

(** What is cut away by [restrict] is exactly the undeclared keys. *)
Lemma restrict_undeclared (k : klass) (m : gmap string value) (f : string) :
  f ∉ fields k → restrict k m !! f = None.
Proof.
  intros Hf. unfold restrict. apply map_lookup_filter_None. right.
  intros v _ Hin. by apply Hf.
Qed.

(** * More on the registry *)









(** X3: the name found for an id does not depend on the order in which the
    keys of [operations] are iterated. *)
Theorem name_for_id_any_order (keys : list string) (i : Z) :
  keys ≡ₚ operations.*1 →
  rbind (getOperationNameForId_loop keys i) (λ found,
    match found with
    | Some key => Ok key
    | None => Ok ("Unknown Operation ID " +:+ format_d i)
    end)
  = getOperationNameForId i.
Proof.
  intros Hperm. unfold getOperationNameForId.
  by rewrite (loop_any_order keys i Hperm).
Qed.

Lemma name_for_id_any_order_witness :
  rbind (getOperationNameForId_loop (reverse (operations.*1)) 7) (λ found,
    match found with
    | Some key => Ok key
    | None => Ok ("Unknown Operation ID " +:+ format_d 7)
    end)
  = getOperationNameForId 7.
Proof.
  apply (name_for_id_any_order (reverse (operations.*1)) 7).
  apply reverse_Permutation.
Defined.

(** * More on construction *)

Lemma dict_get_None {V} (d : list (string * V)) (k : string) :
  k ∉ d.*1 → dict_get d k = None.
Proof.
  induction d as [|[k' v'] d IH]; cbn [dict_get fmap list_fmap fst];
    [done|].
  intros [Hne Hd]%not_elem_of_cons.
  destruct (String.eqb_spec k' k) as [->|_]; [done|]. by apply IH.
Qed.

(** The branch of a variant class for arguments that are not a value of the
    class itself, whatever the arguments are. *)
Lemma call_klass_general (k : klass) (args : list pyobj)
      (kw : gmap string value) (st : state) :
  kw !! "self" = None →
  Objects.isArgsThisClass k args = false →
  call_klass k args kw st =
  match (if (length args =? 1)%nat && (size kw =? 0)%nat
         then first_arg args else Ok (PDict kw)) with
  | Ok src => built st k (build_items (schema k) src)
  | Raise e => (Raise e, st)
  end.
Proof.
  intros Hself Hnot. rewrite call_klass_no_self by done.
  destruct k; cbn [schema build_items];
    unfold Vote__init__, Comment__init__; rewrite Hnot;
    (destruct ((length args =? 1)%nat && (size kw =? 0)%nat);
     [destruct (first_arg args) as [src|e]; [|reflexivity]|]);
    cbn [bind lift ret].
  all: init_steps; reflexivity.
Qed.

Lemma this_class_inv (k : klass) (args : list pyobj) :
  Objects.isArgsThisClass k args = true →
  ∃ o, args = [PObj o] ∧ type_ o = k.
Proof.
  destruct args as [|a [|b args]]; try discriminate.
  destruct a as [[s|z]|m|[k' d]|l], k; try discriminate; cbn.
  all: try destruct k'; try discriminate; intros _; by eexists.
Qed.

Lemma call_klass_same_class_any (o : GrapheneObject) (kw : gmap string value)
      (st : state) :
  kw !! "self" = None →
  call_klass (type_ o) [PObj o] kw st
  = (Ok {| type_ := type_ o; data := data o |}, st).
Proof.
  intros Hself. rewrite call_klass_no_self by done. by destruct o as [[] d].
Qed.

(** A variant class either fails and leaves the store as it was, or hands
    out the [data] of the value it was given, or makes one new object. *)
Lemma call_klass_cases (k : klass) (args : list pyobj)
      (kw : gmap string value) (st : state) :
  (∃ e, call_klass k args kw st = (Raise e, st))
  ∨ (∃ o, args = [PObj o] ∧ type_ o = k
          ∧ call_klass k args kw st
            = (Ok {| type_ := k; data := data o |}, st))
  ∨ (∃ items, call_klass k args kw st
              = (Ok {| type_ := k; data := length (heap st) |},
                 with_new st items)).
Proof.
  destruct (kw !! "self") as [v|] eqn:Hself.
  { left. exists TypeError. by apply call_klass_self. }
  destruct (Objects.isArgsThisClass k args) eqn:Hthis.
  - apply this_class_inv in Hthis as (o & -> & <-).
    right; left. exists o. by rewrite call_klass_same_class_any.
  - rewrite call_klass_general by done.
    destruct (if (length args =? 1)%nat && (size kw =? 0)%nat
              then first_arg args else Ok (PDict kw)) as [src|e];
      [|left; by eexists].
    destruct (build_items (schema k) src) as [items|e]; cbn [built].
    + right; right. by eexists.
    + left. by eexists.
Qed.

Lemma call_klass_type (k : klass) (args : list pyobj) (kw : gmap string value)
      (st st' : state) (obj : GrapheneObject) :
  call_klass k args kw st = (Ok obj, st') → type_ obj = k.
Proof.
  destruct (call_klass_cases k args kw st)
    as [[e ->]|[(o & _ & _ & ->)|[items ->]]]; by intros [= <- _].
Qed.

(** The first element of a pair either names one of the two classes or
    makes the construction fail at once. *)
Lemma pair_name_cases (a b : pyobj) (st : state) :
  (∃ k, a = PVal (VStr (registry_name k)))
  ∨ (∃ e, Operation__init__ (PList [a; b]) st = (Raise e, st)).
Proof.
  destruct a as [[n|z]|m|o|l]; try (right; by eexists).
  destruct (dict_get operations n) as [i|] eqn:E.
  - apply dict_get_In in E. rewrite operations_items in E. cbn [In] in E.
    destruct E as [[= <- <-]|E]; [left; by exists Vote|].
    destruct E as [[= <- <-]|E]; [left; by exists Comment|].
    repeat (destruct E as [[= <- <-]|E]; [right; by eexists|]).
    destruct E.
  - right. eexists.
    unfold Operation__init__, bind, lift, operations_getitem. by rewrite E.
Qed.

Lemma pair_success_inv (a b : pyobj) (st st' : state) (o : Operation) :
  Operation__init__ (PList [a; b]) st = (Ok o, st') →
  ∃ k obj, a = PVal (VStr (registry_name k))
           ∧ call_klass k [b] ∅ st = (Ok obj, st')
           ∧ o = {| opId := klass_id k; name := class_name k;
                    op := PObj obj |}.
Proof.
  intros H. destruct (pair_name_cases a b st) as [[k ->]|[e He]];
    [|by rewrite He in H].
  rewrite Operation__init__pair in H.
  destruct (call_klass k [b] ∅ st) as [[obj|e] st1] eqn:Hcall; [|done].
  injection H as <- <-. by exists k, obj.
Qed.

(** X4: building an Operation from a pair succeeds exactly when the first
    element is "vote" or "comment" and the class of that name accepts the
    second element; the Operation then carries the id of the class, the
    class name with its capital as [name], and the variant just built. *)
Theorem Operation_from_pair_iff (a b : pyobj) (st st' : state) (o : Operation) :
  Operation__init__ (PList [a; b]) st = (Ok o, st')
  ↔ ∃ k obj, a = PVal (VStr (registry_name k))
             ∧ call_klass k [b] ∅ st = (Ok obj, st')
             ∧ o = {| opId := klass_id k; name := class_name k;
                      op := PObj obj |}.
Proof.
  split; [apply pair_success_inv|].
  - intros (k & obj & -> & Hcall & ->).
    by rewrite Operation__init__pair, Hcall.
Qed.

(** X5: when building an Operation from a pair fails, whatever the reason,
    the store and the standard output are as they were before. *)
Theorem Operation_from_pair_failure_keeps_state
        (a b : pyobj) (st st' : state) (e : exn) :
  Operation__init__ (PList [a; b]) st = (Raise e, st') → st' = st.
Proof.
  intros H. destruct (pair_name_cases a b st) as [[k ->]|[e' He]];
    [|rewrite He in H; by injection H].
  rewrite Operation__init__pair in H.
  destruct (call_klass_cases k [b] ∅ st)
    as [[e' Hc]|[(o & _ & _ & Hc)|[items Hc]]]; rewrite Hc in H;
    by injection H.
Qed.

Lemma Operation_from_pair_failure_keeps_state_witness :
  initial = initial.
Proof.
  apply (Operation_from_pair_failure_keeps_state
           (PVal (VStr "vote")) (PDict ∅) initial initial
           (KeyError (PVal (VStr "voter")))).
  by vm_compute.
Defined.

(** X6: a name that the registry does not hold, and likewise a numeric id
    put where the name belongs, makes [Operation] raise [KeyError] with that
    very key; nothing is built or printed. *)
Theorem Operation_unknown_name (n : string) (z : Z) (b : pyobj) (st : state) :
  n ∉ operations.*1 →
  Operation__init__ (PList [PVal (VStr n); b]) st
  = (Raise (KeyError (PVal (VStr n))), st)
  ∧ Operation__init__ (PList [PVal (VInt z); b]) st
    = (Raise (KeyError (PVal (VInt z))), st).
Proof.
  intros Hn%dict_get_None. split; [|reflexivity].
  unfold Operation__init__, bind, lift, operations_getitem. by rewrite Hn.
Qed.

Lemma Operation_unknown_name_witness :
  Operation__init__ (PList [PVal (VStr "Vote"); PDict vote_alice]) initial
  = (Raise (KeyError (PVal (VStr "Vote"))), initial)
  ∧ Operation__init__ (PList [PVal (VInt 0); PDict vote_alice]) initial
    = (Raise (KeyError (PVal (VInt 0))), initial).
Proof.
  apply (Operation_unknown_name "Vote" 0 (PDict vote_alice) initial).
  intros H%list_elem_of_In. rewrite operations_items in H. cbn in H.
  intuition discriminate.
Defined.

Lemma other_prints_and_fails (x : pyobj) (st : state) :
  (∀ a b, x ≠ PList [a; b]) → (∀ o, x ≠ PObj o) →
  Operation__init__ x st
  = (Raise (KeyError (PVal (VStr (lower (type_name x))))),
     with_printed st (lower (type_name x))).
Proof.
  intros Hpair Hobj.
  destruct x as [[s|z]|m|o|l]; try reflexivity; [by destruct (Hobj o)|].
  destruct l as [|a [|b [|c l]]]; try reflexivity. by destruct (Hpair a b).
Qed.

(** X7: anything handed to [Operation] that is neither a list of two
    elements nor a variant (a bare field map, a name, a list of another
    length) has the lower-cased name of its type printed and then raises
    [KeyError] for that name. *)
Theorem Operation_from_other_prints_and_fails (x : pyobj) (st : state) :
  (∀ a b, x ≠ PList [a; b]) → (∀ o, x ≠ PObj o) →
  Operation__init__ x st
  = (Raise (KeyError (PVal (VStr (lower (type_name x))))),
     with_printed st (lower (type_name x))).
Proof. apply other_prints_and_fails. Qed.

Lemma Operation_from_other_prints_and_fails_witness :
  Operation__init__ (PDict vote_alice) initial
  = (Raise (KeyError (PVal (VStr "dict"))), with_printed initial "dict").
Proof.
  apply (Operation_from_other_prints_and_fails (PDict vote_alice) initial);
    discriminate.
Defined.

(** X8: a positional field map is read only when no keyword comes with it.
    As soon as one keyword argument is given, or more than one positional
    argument, the fields are taken from the keywords alone and the
    positional arguments are ignored. *)
Theorem keywords_override_positional
        (k : klass) (args : list pyobj) (kw : gmap string value) (st : state) :
  Objects.isArgsThisClass k args = false →
  kw ≠ ∅ ∨ length args ≠ 1 →
  call_klass k args kw st = call_klass k [] kw st.
Proof.
  intros Hnot Hkw.
  destruct (kw !! "self") as [v|] eqn:Hself.
  { by rewrite !call_klass_self. }
  rewrite call_klass_general, call_klass_keywords by done.
  replace ((length args =? 1)%nat && (size kw =? 0)%nat) with false; [done|].
  symmetry. apply andb_false_iff. destruct Hkw as [Hkw|Hlen].
  - right. apply Nat.eqb_neq. by apply map_size_non_empty_iff.
  - left. by apply Nat.eqb_neq.
Qed.

Lemma keywords_override_positional_witness :
  call_klass Vote [PDict vote_alice] {["memo" := VStr "x"]} initial
  = call_klass Vote [] {["memo" := VStr "x"]} initial.
Proof.
  apply (keywords_override_positional Vote [PDict vote_alice]
           {["memo" := VStr "x"]} initial).
  - reflexivity.
  - left. apply insert_non_empty.
Defined.

(** X9: two variants built from the same field map are separate objects:
    a field set through the second leaves the first as it was (unlike a
    variant built from another variant). *)
Theorem fresh_variants_independent
        (k : klass) (m : gmap string value) (st st1 st2 st3 : state)
        (first second : GrapheneObject) (f : string) (v : Types.t) :
  call_klass k [PDict m] ∅ st = (Ok first, st1) →
  call_klass k [PDict m] ∅ st1 = (Ok second, st2) →
  set_field second f v st2 = (Ok tt, st3) →
  data first ≠ data second
  ∧ (get_field first f st3).1 = (get_field first f st2).1.
Proof.
  rewrite !call_klass_positional by apply not_this_class.
  destruct (build_items (schema k) (PDict m)) as [items|e]; cbn [built];
    [|discriminate].
  intros [= <- <-] [= <- <-].
  unfold set_field. cbn [data with_new heap].
  destruct (_ !! _) as [d|]; [|discriminate]. intros [= <-].
  rewrite length_app. cbn [length]. split; [lia|].
  unfold get_field, bind, load, ret. cbn [data heap with_new].
  rewrite list_lookup_insert_ne by lia.
  assert (∀ (l : list OrderedDict) x y, ((l ++ [x]) ++ [y]) !! length l = Some x)
    as Hfirst.
  { intros l x y. rewrite <- app_assoc. by apply list_lookup_middle. }
  by rewrite !Hfirst.
Qed.

Lemma fresh_variants_independent_witness :
  0 ≠ 1
  ∧ (get_field {| type_ := Vote; data := 0 |} "weight"
       (set_field {| type_ := Vote; data := 1 |} "weight" (Types.Int16 5)
          (encode_from_pair "vote" vote_alice
             (encode_from_pair "vote" vote_alice initial).2).2).2).1
    = (get_field {| type_ := Vote; data := 0 |} "weight"
         (encode_from_pair "vote" vote_alice
            (encode_from_pair "vote" vote_alice initial).2).2).1.
Proof.
  apply (fresh_variants_independent Vote vote_alice initial
           (encode_from_pair "vote" vote_alice initial).2
           (encode_from_pair "vote" vote_alice
              (encode_from_pair "vote" vote_alice initial).2).2
           _
           {| type_ := Vote; data := 0 |} {| type_ := Vote; data := 1 |}
           "weight" (Types.Int16 5)).
  - by vm_compute.
  - by vm_compute.
  - by vm_compute.
Defined.

(** * More on encoding *)

Lemma py_bytes_keeps_state (x : pyobj) (st : state) : (py_bytes x st).2 = st.
Proof.
  destruct x as [[s|n]|m|o|l]; cbn [py_bytes]; try reflexivity.
  - by destruct (n <? 0)%Z.
  - by destruct (decide (m = ∅)).
  - unfold Objects.GrapheneObject__bytes__, bind, load, lift.
    by destruct (heap st !! data o).
Qed.

(** X10: encoding an Operation, whether it succeeds or raises, leaves the
    store and the standard output exactly as they were, so that encoding
    again gives the same outcome as encoding once. *)
Theorem encoding_keeps_state (o : Operation) (st : state) :
  (Operation__bytes__ o st).2 = st
  ∧ (let! _ := Operation__bytes__ o in Operation__bytes__ o) st
    = Operation__bytes__ o st.
Proof.
  assert ((Operation__bytes__ o st).2 = st) as Hst.
  { unfold Operation__bytes__, bind, lift, ret.
    destruct (Types.Id__bytes__ (opId o)); [|reflexivity].
    pose proof (py_bytes_keeps_state (op o) st) as H.
    by destruct (py_bytes (op o) st) as [[b|e] st1]. }
  split; [done|]. unfold bind at 1.
  destruct (Operation__bytes__ o st) as [[b|e] st1] eqn:E; cbn [snd] in Hst;
    subst st1; [exact E|reflexivity].
Qed.

(** X11: taking the variant out of an Operation built from a pair and
    wrapping it again gives an Operation with the same id and the same
    variant, which encodes alike; only [name] differs, the lower-case key
    in place of the class name, and the key is printed. *)
Theorem rewrap_keeps_id_and_bytes
        (a b : pyobj) (st st1 : state) (o : Operation) :
  Operation__init__ (PList [a; b]) st = (Ok o, st1) →
  ∃ o', Operation__init__ (op o) st1 = (Ok o', with_printed st1 (lower (name o)))
        ∧ opId o' = opId o
        ∧ op o' = op o
        ∧ name o' = lower (name o)
        ∧ name o' ≠ name o
        ∧ ∀ s, Operation__bytes__ o' s = Operation__bytes__ o s.
Proof.
  intros (k & obj & -> & Hcall & ->)%pair_success_inv.
  apply call_klass_type in Hcall as <-. cbn [op name opId].
  rewrite Operation__init__value. eexists. split.
  - by destruct obj as [[] d].
  - cbn [opId op name]. by destruct obj as [[] d].
Qed.

Lemma rewrap_keeps_id_and_bytes_witness :
  ∃ o', Operation__init__
          (op {| opId := 0; name := "Vote";
                 op := PObj {| type_ := Vote; data := 0 |} |})
          (encode_from_pair "vote" vote_alice initial).2
        = (Ok o', with_printed (encode_from_pair "vote" vote_alice initial).2
                    (lower "Vote"))
        ∧ opId o' = 0%Z
        ∧ op o' = PObj {| type_ := Vote; data := 0 |}
        ∧ name o' = lower "Vote"
        ∧ name o' ≠ "Vote"
        ∧ ∀ s, Operation__bytes__ o' s
               = Operation__bytes__
                   {| opId := 0; name := "Vote";
                      op := PObj {| type_ := Vote; data := 0 |} |} s.
Proof.
  apply (rewrap_keeps_id_and_bytes (PVal (VStr "vote")) (PDict vote_alice)
           initial (encode_from_pair "vote" vote_alice initial).2
           {| opId := 0; name := "Vote";
              op := PObj {| type_ := Vote; data := 0 |} |}).
  by vm_compute.
Defined.

(** X12: for every Operation that construction returns, by either branch,
    [name] and [opId] agree with the registry: [name] in lower case is a
    key of [operations], that key holds [opId], and the name looked up for
    [opId], which [__str__] displays, is that key. *)
Theorem constructed_Operation_invariant
        (x : pyobj) (st st' : state) (o : Operation) :
  Operation__init__ x st = (Ok o, st') →
  operations_getitem (PVal (VStr (lower (name o)))) = Ok (opId o)
  ∧ getOperationNameForId (opId o) = Ok (lower (name o)).
Proof.
  intros H.
  assert ((∃ a b, x = PList [a; b]) ∨ (∃ obj, x = PObj obj)
          ∨ ((∀ a b, x ≠ PList [a; b]) ∧ (∀ obj, x ≠ PObj obj)))
    as [(a & b & ->)|[[obj ->]|[Hpair Hobj]]].
  { destruct x as [v|m|obj|[|a [|b [|c l]]]]; eauto; right; right; by split. }
  - apply pair_success_inv in H as (k & obj & _ & _ & ->).
    cbn [opId name]. by destruct k.
  - rewrite Operation__init__value in H. injection H as <- _.
    cbn [opId name]. by destruct obj as [[] d].
  - by rewrite other_prints_and_fails in H.
Qed.

Lemma constructed_Operation_invariant_witness :
  operations_getitem (PVal (VStr (lower "Comment"))) = Ok 1%Z
  ∧ getOperationNameForId 1 = Ok (lower "Comment").
Proof.
  apply (constructed_Operation_invariant
           (PList [PVal (VStr "comment"); PDict comment_carol]) initial
           (encode_from_pair "comment" comment_carol initial).2
           {| opId := 1; name := "Comment";
              op := PObj {| type_ := Comment; data := 0 |} |}).
  by vm_compute.
Defined.

(** * The confirmation dialog *)

Section Confirm.

Import steemwalletrpc.

Lemma prompt_for_inv (default : option string) (p : string) :
  prompt_for default = Return p →
  default = None ∨ default = Some "yes" ∨ default = Some "no".
Proof.
  destruct default as [d|]; [|by left]. cbn.
  destruct (String.eqb_spec d "yes") as [->|_]; [by right; left|].
  destruct (String.eqb_spec d "no") as [->|_]; [by right; right|done].
Qed.

Lemma confirm_loop_accepts (text : string) (default : option string)
      (line : string) (lines out : list string) (b : bool) :
  reply default line = Some b →
  _confirm_loop text default (line :: lines) out
  = (Return b, {| stdin := lines; written := out ++ [text] |}).
Proof.
  unfold reply. cbn [_confirm_loop]. unfold valid_getitem.
  destruct default as [d|], (str_lower line) as [|a s]; cbn [String.eqb];
    intros H; rewrite ?H; try done.
  all: by rewrite ?bool_decide_true.
Qed.

Lemma confirm_loop_rejects (text : string) (default : option string)
      (p line : string) (lines out : list string) :
  prompt_for default = Return p →
  reply default line = None →
  _confirm_loop text default (line :: lines) out
  = _confirm_loop text default lines (out ++ [text; complaint]).
Proof.
  intros Hd%prompt_for_inv. unfold reply. cbn [_confirm_loop].
  replace (out ++ [text; complaint]) with ((out ++ [text]) ++ [complaint])
    by (by rewrite <- app_assoc).
  destruct Hd as [->|[->| ->]], (str_lower line) as [|a s];
    cbn [String.eqb]; intros H; try done; by rewrite bool_decide_false, ?H
      by (rewrite H; by intros [? ?]).
Qed.

Lemma confirm_loop_rejects_all (text : string) (default : option string)
      (p : string) (bad lines out : list string) :
  prompt_for default = Return p →
  Forall (λ l, reply default l = None) bad →
  _confirm_loop text default (bad ++ lines) out
  = _confirm_loop text default lines (out ++ asked_again text bad).
Proof.
  intros Hd Hbad. revert out.
  induction Hbad as [|l bad Hl _ IH]; intros out.
  - by rewrite app_nil_r.
  - cbn [app]. rewrite (confirm_loop_rejects _ _ p) by done.
    rewrite IH. by rewrite <- app_assoc.
Qed.

(** X13: with no default, or the default "yes" or "no", the dialog is
    decided by the first line that stands for an answer: an empty line for
    the default, or any spelling of yes, ye, y, no, n.  Every line before
    it costs one more question and one complaint, the lines after it stay
    unread, and the question is written once more than there were lines
    turned down. *)
Theorem confirm_first_answer_decides
        (question p : string) (default : option string)
        (bad : list string) (good : string) (rest w : list string) (b : bool) :
  prompt_for default = Return p →
  Forall (λ l, reply default l = None) bad →
  reply default good = Some b →
  _confirm question default {| stdin := bad ++ good :: rest; written := w |}
  = (Return b,
     {| stdin := rest;
        written := w ++ asked_again (question +:+ p) bad ++ [question +:+ p] |}).
Proof.
  intros Hd Hbad Hgood. unfold _confirm. rewrite Hd. cbn [stdin written].
  rewrite (confirm_loop_rejects_all _ _ p) by done.
  rewrite (confirm_loop_accepts _ _ _ _ _ b) by done. by rewrite <- app_assoc.
Qed.

Lemma confirm_first_answer_decides_witness :
  _confirm "Send?" (Some "no")
    {| stdin := ["maybe"; "yes please"] ++ "" :: ["y"]; written := [] |}
  = (Return false,
     {| stdin := ["y"];
        written := [] ++ asked_again ("Send?" +:+ " [y/N] ") ["maybe"; "yes please"]
                   ++ ["Send?" +:+ " [y/N] "] |}).
Proof.
  apply (confirm_first_answer_decides "Send?" " [y/N] " (Some "no")
           ["maybe"; "yes please"] "" ["y"] [] false).
  - reflexivity.
  - repeat constructor.
  - reflexivity.
Defined.

(** X14: when the input ends before any line stands for an answer, the
    dialog raises [EOFError], having asked once per line and once more. *)
Theorem confirm_input_exhausted
        (question p : string) (default : option string) (lines w : list string) :
  prompt_for default = Return p →
  Forall (λ l, reply default l = None) lines →
  _confirm question default {| stdin := lines; written := w |}
  = (Raises EOFError,
     {| stdin := [];
        written := w ++ asked_again (question +:+ p) lines
                   ++ [question +:+ p] |}).
Proof.
  intros Hd Hbad. unfold _confirm. rewrite Hd. cbn [stdin written].
  rewrite <- (app_nil_r lines) at 1.
  rewrite (confirm_loop_rejects_all _ _ p) by done.
  cbn [_confirm_loop]. by rewrite <- app_assoc.
Qed.

Lemma confirm_input_exhausted_witness :
  _confirm "Send?" None {| stdin := [""; "sure"]; written := [] |}
  = (Raises EOFError,
     {| stdin := [];
        written := [] ++ asked_again ("Send?" +:+ " [y/n] ") [""; "sure"]
                   ++ ["Send?" +:+ " [y/n] "] |}).
Proof.
  apply (confirm_input_exhausted "Send?" " [y/n] " None [""; "sure"] []).
  - reflexivity.
  - repeat constructor.
Defined.

Lemma confirm_loop_outcome (text : string) (default : option string)
      (p : string) (lines out : list string) :
  prompt_for default = Return p →
  ∃ c', (∃ b, _confirm_loop text default lines out = (Return b, c'))
        ∨ _confirm_loop text default lines out = (Raises EOFError, c').
Proof.
  intros Hd. revert out. induction lines as [|l lines IH]; intros out.
  - eexists. by right.
  - destruct (reply default l) as [b|] eqn:Hl.
    + eexists. left. exists b. by apply confirm_loop_accepts.
    + rewrite (confirm_loop_rejects _ _ p) by done. apply IH.
Qed.

(** X15: the dialog raises [ValueError] exactly when the default is a
    text other than "yes" and "no" (in this exact spelling); it then has
    written nothing and read nothing. *)
Theorem confirm_ValueError_iff
        (question : string) (default : option string) (c c' : console)
        (msg : string) :
  _confirm question default c = (Raises (ValueError msg), c')
  ↔ ∃ d, default = Some d ∧ d ≠ "yes" ∧ d ≠ "no"
         ∧ msg = "invalid default answer: '" +:+ d +:+ "'" ∧ c' = c.
Proof.
  unfold _confirm. split.
  - destruct (prompt_for default) as [p|e] eqn:Hp.
    + destruct (confirm_loop_outcome (question +:+ p) default p
                  (stdin c) (written c) Hp) as [c1 [[b ->]| ->]]; done.
    + destruct default as [d|]; [|done]. cbn in Hp.
      destruct (String.eqb_spec d "yes"); [done|].
      destruct (String.eqb_spec d "no"); [done|].
      injection Hp as <-. intros [= <- <-]. by exists d.
  - intros (d & -> & Hyes & Hno & -> & ->). cbn.
    by rewrite (proj2 (String.eqb_neq d "yes")), (proj2 (String.eqb_neq d "no")).
Qed.

Lemma confirm_loop_same_case (text : string) (default : option string)
      (lines lines' out : list string) :
  str_lower <$> lines = str_lower <$> lines' →
  (_confirm_loop text default lines out).1
  = (_confirm_loop text default lines' out).1
  ∧ written (_confirm_loop text default lines out).2
    = written (_confirm_loop text default lines' out).2.
Proof.
  revert lines' out. induction lines as [|l lines IH];
    intros [|l' lines'] out; try done.
  intros [= Hl Hrest]. cbn [_confirm_loop]. rewrite Hl.
  destruct default as [d|];
    repeat match goal with
           | |- context [if ?b then _ else _] => destruct b
           end; try done; by apply IH.
Qed.

(** X16: the dialog does not tell capitals from small letters: two inputs
    that agree line by line once lower-cased lead to the same outcome and
    the same texts written. *)
Theorem confirm_ignores_case
        (question : string) (default : option string)
        (lines lines' w : list string) :
  str_lower <$> lines = str_lower <$> lines' →
  (_confirm question default {| stdin := lines; written := w |}).1
  = (_confirm question default {| stdin := lines'; written := w |}).1
  ∧ written (_confirm question default {| stdin := lines; written := w |}).2
    = written (_confirm question default {| stdin := lines'; written := w |}).2.
Proof.
  intros H. unfold _confirm.
  destruct (prompt_for default); [|done]. by apply confirm_loop_same_case.
Qed.

Lemma confirm_ignores_case_witness :
  (_confirm "Send?" None {| stdin := ["Maybe"; "YES"]; written := [] |}).1
  = (_confirm "Send?" None {| stdin := ["maybe"; "yEs"]; written := [] |}).1
  ∧ written (_confirm "Send?" None {| stdin := ["Maybe"; "YES"]; written := [] |}).2
    = written (_confirm "Send?" None {| stdin := ["maybe"; "yEs"]; written := [] |}).2.
Proof.
  apply (confirm_ignores_case "Send?" None ["Maybe"; "YES"] ["maybe"; "yEs"] []).
  reflexivity.
Defined.

End Confirm.

(** * The RPC call *)

Section Rpc.

Import steemwalletrpc.

Variable post : request → option response.
Variable dumps : json → string.
Variable loads : string → option json.

#[local] Abbreviation rpcexec := (steemwalletrpc.rpcexec post dumps loads).
#[local] Abbreviation request_of := (steemwalletrpc.request_of dumps).

Lemma rpcexec_cases (self : SteemWalletRPC) (payload : json) :
  rpcexec self payload =
  match post (request_of self payload) with
  | None => Raises (RPCConnection "Error connecting to Client!")
  | Some r =>
      if (status_code r =? 401)%Z
      then Raises (UnauthorizedError (Some "Invalid login credentials!"))
      else match loads (text r) with
           | None =>
               Raises (ValueError "Client returned invalid format. Expected JSON!")
           | Some ret => answer ret
           end
  end.
Proof.
  unfold steemwalletrpc.rpcexec, rpcexec_try, answer.
  destruct (post _) as [r|]; cbn [obind]; [|reflexivity].
  destruct (status_code r =? 401)%Z; [reflexivity|].
  destruct (loads (text r)) as [ret|]; cbn [obind]; [|reflexivity].
  destruct ret as [|b|z|f|s|l|d]; cbn [json_in obind]; try reflexivity.
  - by destruct (contains "error" s).
  - by destruct (existsb _ l).
  - destruct (dict_get d "error") as [e|] eqn:He; cbn [json_getitem];
      rewrite ?He; cbn; [|reflexivity].
    destruct e as [|b|z|f|s|l|e]; cbn [json_in obind]; try reflexivity.
    + by destruct (contains "detail" s).
    + by destruct (existsb _ l).
    + destruct (dict_get e "detail") as [x|] eqn:Hx; cbn; rewrite ?Hx;
        [reflexivity|].
      by destruct (dict_get e "message").
Qed.

#[local] Set Warnings "-clear-no-such-hyp".

Ltac rpc_cases :=
  rewrite rpcexec_cases; unfold answer, json_getitem;
  repeat match goal with
         | |- context [match ?x with _ => _ end] => destruct x eqn:?
         | |- context [if ?b then _ else _] => destruct b eqn:?
         end;
  repeat match goal with
         | H : (_ =? _)%Z = true |- _ => apply Z.eqb_eq in H
         | H : (_ =? _)%Z = false |- _ => apply Z.eqb_neq in H
         end.

Lemma rpcexec_returns_inv (self : SteemWalletRPC) (payload v : json) :
  rpcexec self payload = Return v
  ↔ ∃ r d, post (request_of self payload) = Some r
           ∧ status_code r ≠ 401%Z
           ∧ loads (text r) = Some (JObj d)
           ∧ dict_get d "error" = None
           ∧ dict_get d "result" = Some v.
Proof. rpc_cases; naive_solver. Qed.

(** X17: [rpcexec] returns a value exactly when the request was answered,
    the status is not 401, the text decodes to a JSON object, that object
    has no member "error", and it has a member "result": the value is that
    member.  An answer with both "error" and "result" never returns. *)
Theorem rpcexec_returns_iff (self : SteemWalletRPC) (payload v : json) :
  rpcexec self payload = Return v
  ↔ ∃ r d, post (request_of self payload) = Some r
           ∧ status_code r ≠ 401%Z
           ∧ loads (text r) = Some (JObj d)
           ∧ dict_get d "error" = None
           ∧ dict_get d "result" = Some v.
Proof. apply rpcexec_returns_inv. Qed.

(** X18: [rpcexec] raises [RPCError] exactly when the answer is a JSON
    object whose member "error" is an object; the error carries its member
    "detail" when there is one, and its member "message" only when there is
    no "detail". *)
Theorem rpcexec_RPCError_iff (self : SteemWalletRPC) (payload x : json) :
  rpcexec self payload = Raises (RPCError x)
  ↔ ∃ r d e, post (request_of self payload) = Some r
             ∧ status_code r ≠ 401%Z
             ∧ loads (text r) = Some (JObj d)
             ∧ dict_get d "error" = Some (JObj e)
             ∧ (dict_get e "detail" = Some x
                ∨ (dict_get e "detail" = None ∧ dict_get e "message" = Some x)).
Proof. rpc_cases; naive_solver. Qed.

(** X19: the three failures that [rpcexec] reports under its own messages.
    [RPCConnection] is raised exactly when the request itself failed,
    [UnauthorizedError] exactly when the status is 401, whatever the text
    of the answer, and [ValueError] exactly when the status is another one
    and the text is not JSON. *)
Theorem rpcexec_handled_failures (self : SteemWalletRPC) (payload : json) :
  (∀ msg, rpcexec self payload = Raises (RPCConnection msg)
          ↔ post (request_of self payload) = None
            ∧ msg = "Error connecting to Client!")
  ∧ (∀ msg, rpcexec self payload = Raises (UnauthorizedError msg)
            ↔ ∃ r, post (request_of self payload) = Some r
                   ∧ status_code r = 401%Z
                   ∧ msg = Some "Invalid login credentials!")
  ∧ (∀ msg, rpcexec self payload = Raises (ValueError msg)
            ↔ ∃ r, post (request_of self payload) = Some r
                   ∧ status_code r ≠ 401%Z
                   ∧ loads (text r) = None
                   ∧ msg = "Client returned invalid format. Expected JSON!").
Proof. split; [|split]; intros msg; rpc_cases; naive_solver. Qed.

(** X20: an answer that is valid JSON but not an object (null, a number,
    a text, a list) is not reported as an RPC error or as a bad format:
    [TypeError] escapes from [rpcexec].  So it does when the member "error"
    of the answer is not an object. *)
Theorem rpcexec_TypeError_iff (self : SteemWalletRPC) (payload : json) :
  rpcexec self payload = Raises TypeError
  ↔ ∃ r ret, post (request_of self payload) = Some r
             ∧ status_code r ≠ 401%Z
             ∧ loads (text r) = Some ret
             ∧ ((∀ d, ret ≠ JObj d)
                ∨ ∃ d e, ret = JObj d ∧ dict_get d "error" = Some e
                         ∧ ∀ e', e ≠ JObj e').
Proof. rpc_cases; naive_solver. Qed.

(** X21: [KeyError] escapes from [rpcexec] exactly for an object without
    "error" and without "result" (the key is "result"), and for an object
    whose "error" is an object with neither "detail" nor "message" (the key
    is "message"). *)
Theorem rpcexec_KeyError_iff (self : SteemWalletRPC) (payload : json) (k : string) :
  rpcexec self payload = Raises (KeyError k)
  ↔ ∃ r d, post (request_of self payload) = Some r
           ∧ status_code r ≠ 401%Z
           ∧ loads (text r) = Some (JObj d)
           ∧ ((dict_get d "error" = None ∧ dict_get d "result" = None
               ∧ k = "result")
              ∨ ∃ e, dict_get d "error" = Some (JObj e)
                     ∧ dict_get e "detail" = None
                     ∧ dict_get e "message" = None
                     ∧ k = "message").
Proof. rpc_cases; naive_solver. Qed.

(** X22: a call made through an attribute name returns what [rpcexec]
    returns for the JSON-RPC 2.0 request with that name as "method", the
    arguments in order as "params" and the id 0; the value comes from an
    answer without "error", as for any payload. *)
Theorem method_returns_iff
        (self : SteemWalletRPC) (name : string) (args : list json) (v : json) :
  method post dumps loads self name args = Return v
  ↔ ∃ r d,
      post {| url := "http://" +:+ host self +:+ ":" +:+ format_d (port self)
                     +:+ "/rpc";
              body := dumps (JObj [("method", JStr name); ("params", JArr args);
                                   ("jsonrpc", JStr "2.0"); ("id", JInt 0)]);
              req_headers := headers self;
              auth := (username self, password self) |} = Some r
      ∧ status_code r ≠ 401%Z
      ∧ loads (text r) = Some (JObj d)
      ∧ dict_get d "error" = None
      ∧ dict_get d "result" = Some v.
Proof. unfold method. apply rpcexec_returns_inv. Qed.

End Rpc.
